(** * File organizer: a shallow embedding of [automation/file_organizer.py]

    The script relocates the regular files found directly inside one
    directory into sub-folders chosen by extension category or by creation
    month, renames on collision, and optionally prunes empty sub-folders.

    Modelling choices.
    - Strings are sequences of bytes (the UTF-8 form of a Python [str]);
      [str.lower] is written out on the ASCII range and belongs to the
      platform outside of it.
    - [Path.suffix] and [Path.stem] follow pathlib: the last dot counts only
      when it is neither the first nor the last character of the name.
    - The file system is a finite map from paths (lists of components, from
      the root) to nodes; a node is a regular file or a directory.  Lookups
      are exact (case-sensitive).  Symbolic links and special files are not
      represented.
    - Failures of the environment that the tree does not show (a listing
      or an existence check refused, a move that fails, possibly after its
      copy was written, a folder that cannot be removed) come from an oracle
      of the platform.  The checks on the source directory itself
      ([exists()], [is_file()], [is_dir()], [stat()]) are taken to answer,
      and [mkdir] to fail only for what the tree shows.
    - [datetime.fromtimestamp] (the local-time conversion of the platform) is
      a parameter; [strftime('%Y-%m')] is modelled on its result. *)

From Stdlib Require Import ZArith Ascii String List Lia.
From stdpp Require Import base decidable option list strings pretty relations gmap fin_maps.

Local Open Scope Z_scope.

(** ** Strings as Python uses them *)

Module Str.

Definition lower_ascii (c : ascii) : ascii :=
  let n := nat_of_ascii c in
  if ((65 <=? n)%nat && (n <=? 90)%nat)%bool then ascii_of_nat (n + 32) else c.

(** What [s.lower()] does to a string of ASCII characters: [A-Z] go to
    [a-z], everything else stays. *)
Fixpoint ascii_lower (s : string) : string :=
  match s with
  | EmptyString => EmptyString
  | String c s' => String (lower_ascii c) (ascii_lower s')
  end.

(** [s.isascii()] *)
Fixpoint is_ascii (s : string) : bool :=
  match s with
  | EmptyString => true
  | String c s' => (nat_of_ascii c <? 128)%nat && is_ascii s'
  end.

Fixpoint rfind_from (c : ascii) (s : string) (i last : Z) : Z :=
  match s with
  | EmptyString => last
  | String a s' => rfind_from c s' (i + 1) (if Ascii.eqb a c then i else last)
  end.

(** [s.rfind(c)]: index of the last occurrence, [-1] when there is none. *)
Definition rfind (c : ascii) (s : string) : Z := rfind_from c s 0 (-1).

Definition len (s : string) : Z := Z.of_nat (String.length s).

(** [s[i:]] for [0 <= i] *)
Fixpoint drop (n : nat) (s : string) : string :=
  match n, s with
  | O, _ => s
  | S n', String _ s' => drop n' s'
  | S _, EmptyString => EmptyString
  end.

(** [s[:i]] for [0 <= i] *)
Fixpoint take (n : nat) (s : string) : string :=
  match n, s with
  | O, _ => EmptyString
  | S n', String a s' => String a (take n' s')
  | S _, EmptyString => EmptyString
  end.

End Str.

(** ** pathlib: names, suffixes, stems *)

Abbreviation path := (list string).

Definition dot : ascii := "."%char.

(** [PurePath.suffix] applied to a final component *)
Definition suffix (name : string) : string :=
  let i := Str.rfind dot name in
  if ((0 <? i) && (i <? Str.len name - 1))%bool
  then Str.drop (Z.to_nat i) name else "".

(** [PurePath.stem] applied to a final component *)
Definition stem (name : string) : string :=
  let i := Str.rfind dot name in
  if ((0 <? i) && (i <? Str.len name - 1))%bool
  then Str.take (Z.to_nat i) name else name.

(** [p.parent] *)
Definition parent (p : path) : path := removelast p.

(** [p.name] *)
Definition name_of (p : path) : string := List.last p "".

(** [p / name] *)
Definition joinpath (p : path) (name : string) : path := p ++ [name].

Infix "//" := joinpath (at level 40, left associativity).

(** ** The file system *)

Record file_data := { st_ctime : Z; content : string }.

Inductive node :=
| File (f : file_data)
| Dir.

#[global] Instance file_data_eq_dec : EqDecision file_data.
Proof. solve_decision. Defined.

#[global] Instance node_eq_dec : EqDecision node.
Proof. solve_decision. Defined.

Abbreviation filesystem := (gmap path node).

Definition path_exists (t : filesystem) (p : path) : bool :=
  bool_decide (is_Some (t !! p)).

Definition is_file (t : filesystem) (p : path) : bool :=
  match t !! p with Some (File _) => true | _ => false end.

Definition is_dir (t : filesystem) (p : path) : bool :=
  match t !! p with Some Dir => true | _ => false end.

(** [child_name d p = Some n] exactly when [p = d // n]. *)
Fixpoint child_name (d p : path) : option string :=
  match d, p with
  | [], [n] => Some n
  | x :: d', y :: p' => if decide (x = y) then child_name d' p' else None
  | _, _ => None
  end.

(** The entries of directory [d], in the order the map stores them. *)
Definition entries (t : filesystem) (d : path) : list string :=
  omap (λ kv, child_name d kv.1) (map_to_list t).

Definition is_node_file (x : node) : bool :=
  match x with File _ => true | Dir => false end.

(** All regular files below (or at) path [d]. *)
Definition files_under (d : path) (t : filesystem) : filesystem :=
  filter (λ kv, d `prefix_of` kv.1 ∧ is_node_file kv.2 = true) t.

Definition file_count (d : path) (t : filesystem) : nat := size (files_under d t).

(** ** The platform *)

Record datetime := { year : Z; month : Z; day : Z }.

(** What the script takes from its environment.
    - The order in which a directory is listed.
    - The refusals of the platform that do not show in the tree: a listing
      ([os.scandir]: permission denied), an existence check inside the
      duplicate-name loop ([Path.exists] re-raises every [OSError] but "not
      found": name too long, folder not searchable), [rmdir].
    - The failures of [shutil.move]: [os.rename] fails and the fallback
      ([copy2] then [os.unlink]) fails as well; the copy may have been written
      before, so a failed move can leave a regular file at the destination
      while the source file stays.
    - The local-time conversion of a timestamp.
    - [str.lower]: Python lowers by the Unicode tables, of which only the
      ASCII part is spelled out here ([U+212A] lowers to [k], for one). *)
Record platform := {
  scandir_order : list string → list string;
  scandir_order_perm : ∀ l, scandir_order l ≡ₚ l;
  listdir_fault : path → option string;
  exists_fault : path → option string;
  move_fault : path → path → option (string * option file_data);
  rmdir_fault : path → option string;
  fromtimestamp : Z → datetime;
  str_lower : string → string;
  str_lower_ascii : ∀ s, Str.is_ascii s = true → str_lower s = Str.ascii_lower s
}.

(** ** The organizer object and its category table *)

Record FileOrganizer := {
  source_dir : path;
  file_types : list (string * list string)
}.

Definition default_file_types : list (string * list string) :=
  [ ("Images", [".jpg"; ".jpeg"; ".png"; ".gif"; ".bmp"; ".svg"; ".webp"; ".tiff"]);
    ("Documents", [".pdf"; ".doc"; ".docx"; ".txt"; ".rtf"; ".odt"; ".pages"]);
    ("Spreadsheets", [".xls"; ".xlsx"; ".csv"; ".ods"; ".numbers"]);
    ("Presentations", [".ppt"; ".pptx"; ".odp"; ".key"]);
    ("Videos", [".mp4"; ".avi"; ".mkv"; ".mov"; ".wmv"; ".flv"; ".webm"; ".m4v"]);
    ("Audio", [".mp3"; ".wav"; ".flac"; ".aac"; ".ogg"; ".wma"; ".m4a"]);
    ("Archives", [".zip"; ".rar"; ".7z"; ".tar"; ".gz"; ".bz2"; ".xz"]);
    ("Code", [".py"; ".js"; ".html"; ".css"; ".java"; ".cpp"; ".c"; ".php"; ".rb"; ".go"]);
    ("Executables", [".exe"; ".msi"; ".dmg"; ".pkg"; ".deb"; ".rpm"; ".app"]) ].

(** [FileOrganizer.__init__] *)
Definition FileOrganizer_init (dir : path) : FileOrganizer :=
  {| source_dir := dir; file_types := default_file_types |}.

(** The [for category, extensions in self.file_types.items()] loop of
    [get_file_category], on an already lowered extension. *)
Fixpoint category_of_extension (table : list (string * list string))
    (extension : string) : string :=
  match table with
  | [] => "Others"
  | (category, extensions) :: rest =>
      if bool_decide (extension ∈ extensions) then category
      else category_of_extension rest extension
  end.

(** [get_file_category], on the final component of [file_path] *)
Definition get_file_category (os : platform) (self : FileOrganizer) (name : string) : string :=
  let extension := str_lower os (suffix name) in
  category_of_extension (file_types self) extension.

(** ** Exceptions, log records and the state of a run *)

Inductive exn :=
| FileNotFoundError (p : path)
| NotADirectoryError (p : path)
| FileExistsError (p : path)
| OSError (msg : string)
| ShutilError (msg : string)
| OutOfFuel.

Inductive log_record :=
| LogInfo (msg : string)
| LogError (msg : string).

Inductive result (A : Type) :=
| Ok (a : A)
| Raise (e : exn).

Arguments Ok {A} a.
Arguments Raise {A} e.

Record world := { fs : filesystem; log : list log_record }.

Definition M (A : Type) : Type := world → result A * world.

Definition ret {A} (a : A) : M A := λ w, (Ok a, w).

Definition bind {A B} (m : M A) (k : A → M B) : M B :=
  λ w, match m w with
       | (Ok a, w') => k a w'
       | (Raise e, w') => (Raise e, w')
       end.

Notation "'do' x <- m ; k" := (bind m (λ x, k))
  (at level 60, m at next level, right associativity).
Notation "'do' m ; k" := (do _ <- m ; k)
  (at level 60, right associativity).

Definition raise {A} (e : exn) : M A := λ w, (Raise e, w).

(** [try: body except Exception as e: handler e] *)
Definition try_except {A} (body : M A) (handler : exn → M A) : M A :=
  λ w, match body w with
       | (Ok a, w') => (Ok a, w')
       | (Raise e, w') => handler e w'
       end.

Definition get_fs : M filesystem := λ w, (Ok (fs w), w).

Definition put_fs (t : filesystem) : M unit :=
  λ w, (Ok tt, {| fs := t; log := log w |}).

Definition logging_info (msg : string) : M unit :=
  λ w, (Ok tt, {| fs := fs w; log := log w ++ [LogInfo msg] |}).

Definition logging_error (msg : string) : M unit :=
  λ w, (Ok tt, {| fs := fs w; log := log w ++ [LogError msg] |}).

(** [str(path)] *)
Definition path_str (p : path) : string :=
  match p with
  | [] => "/"
  | _ => foldr (λ c acc, "/" +:+ c +:+ acc) "" p
  end.

(** [str(e)] *)
Definition exn_str (e : exn) : string :=
  match e with
  | FileNotFoundError p => "[Errno 2] No such file or directory: '" +:+ path_str p +:+ "'"
  | NotADirectoryError p => "[Errno 20] Not a directory: '" +:+ path_str p +:+ "'"
  | FileExistsError p => "[Errno 17] File exists: '" +:+ path_str p +:+ "'"
  | OSError msg => msg
  | ShutilError msg => msg
  | OutOfFuel => "<no result>"
  end.

(** ** Operations of [pathlib], [os] and [shutil] *)

Section Organizer.

Variable os : platform.

(** [p.iterdir()], materialised when the loop starts: [os.scandir] is
    called at the first [next], and in the script nothing happens between
    the call of [iterdir] and that. *)
Definition iterdir (p : path) : M (list string) :=
  λ w, match fs w !! p with
       | None => (Raise (FileNotFoundError p), w)
       | Some (File _) => (Raise (NotADirectoryError p), w)
       | Some Dir =>
           match listdir_fault os p with
           | Some msg => (Raise (OSError msg), w)
           | None => (Ok (scandir_order os (entries (fs w) p)), w)
           end
       end.

(** [p.exists()]: [False] when nothing is there, [True] when something is,
    and the [OSError] of [stat] when the platform refuses the check. *)
Definition exists_ (p : path) : M bool :=
  λ w, match exists_fault os p with
       | Some msg => (Raise (OSError msg), w)
       | None => (Ok (path_exists (fs w) p), w)
       end.

(** [p.mkdir(exist_ok=True)] *)
Definition mkdir_exist_ok (p : path) : M unit :=
  λ w, match fs w !! p with
       | Some Dir => (Ok tt, w)
       | Some (File _) => (Raise (FileExistsError p), w)
       | None =>
           match fs w !! parent p with
           | Some Dir => (Ok tt, {| fs := <[p := Dir]> (fs w); log := log w |})
           | Some (File _) => (Raise (NotADirectoryError p), w)
           | None => (Raise (FileNotFoundError p), w)
           end
       end.

(** [os.rename src dst] for a regular file [src]: replaces a regular file at
    [dst], refuses a directory there, needs the directory of [dst]. *)
Definition os_rename (src dst : path) : M unit :=
  λ w, match fs w !! src with
       | Some (File f) =>
           match fs w !! dst, fs w !! parent dst with
           | Some Dir, _ => (Raise (OSError "Is a directory"), w)
           | _, Some Dir =>
               (Ok tt, {| fs := <[dst := File f]> (delete src (fs w)); log := log w |})
           | _, Some (File _) => (Raise (NotADirectoryError dst), w)
           | _, None => (Raise (FileNotFoundError dst), w)
           end
       | _ => (Raise (FileNotFoundError src), w)
       end.

(** What a failed [shutil.move] leaves: nothing, or the file that [copy2]
    wrote at the destination before the failure (of the copy itself, or of
    the [os.unlink] of the source after it). *)
Definition left_behind (src dst : path) (leftover : option file_data)
    (t : filesystem) : filesystem :=
  match leftover with
  | Some g =>
      if (is_file t src && is_dir t (parent dst) && negb (is_dir t dst))%bool
      then <[dst := File g]> t else t
  | None => t
  end.

(** [shutil.move(src, dst)] for a regular file [src]: into [dst] when that is
    a directory; [os.rename], and when the platform refuses it (another
    device, permissions) the copy-then-unlink fallback, which can fail too. *)
Definition shutil_move (src dst : path) : M unit :=
  λ w,
  let real_dst := if is_dir (fs w) dst then dst // name_of src else dst in
  if (is_dir (fs w) dst && path_exists (fs w) real_dst)%bool
  then (Raise (ShutilError "Destination path already exists"), w)
  else match move_fault os src real_dst with
       | None => os_rename src real_dst w
       | Some (msg, leftover) =>
           (Raise (OSError msg),
            {| fs := left_behind src real_dst leftover (fs w); log := log w |})
       end.

(** [any(p.iterdir())] *)
Definition any_iterdir (p : path) : M bool :=
  do names <- iterdir p;
  ret (match names with [] => false | _ :: _ => true end).

(** [p.rmdir()] *)
Definition rmdir (p : path) : M unit :=
  λ w, match rmdir_fault os p with
       | Some msg => (Raise (OSError msg), w)
       | None =>
           match fs w !! p with
           | None => (Raise (FileNotFoundError p), w)
           | Some (File _) => (Raise (NotADirectoryError p), w)
           | Some Dir =>
               match entries (fs w) p with
               | [] => (Ok tt, {| fs := delete p (fs w); log := log w |})
               | _ :: _ => (Raise (OSError "Directory not empty"), w)
               end
           end
       end.

(** ** The duplicate-name loop

    [while destination.exists(): destination = parent / f"{stem}_{counter}{suffix}"; counter += 1].
    The recursion is on [fuel].  [duplicate_loop] is the loop on a tree all
    of whose existence checks answer: [None] means the fuel ran out before
    the loop left, and the result carries the final value of [counter].
    [while_destination_exists] is the loop as the script runs it, where a
    check can raise. *)

Definition numbered (original_destination : path) (counter : nat) : path :=
  let name := name_of original_destination in
  parent original_destination // (stem name +:+ "_" +:+ pretty counter +:+ suffix name).

Fixpoint duplicate_loop (fuel : nat) (t : filesystem)
    (original_destination destination : path) (counter : nat) : option (path * nat) :=
  match fuel with
  | O => None
  | S fuel' =>
      if path_exists t destination
      then duplicate_loop fuel' t original_destination
             (numbered original_destination counter) (counter + 1)
      else Some (destination, counter)
  end.

Fixpoint while_destination_exists (fuel : nat)
    (original_destination destination : path) (counter : nat) : M path :=
  match fuel with
  | O => raise OutOfFuel
  | S fuel' =>
      do found <- exists_ destination;
      if found
      then while_destination_exists fuel' original_destination
             (numbered original_destination counter) (counter + 1)
      else ret destination
  end.

(** [counter = 1; original_destination = destination; while ...], with more
    fuel than the tree has nodes. *)
Definition handle_duplicates (destination : path) : M path :=
  λ w, while_destination_exists (S (size (fs w))) destination destination 1 w.

(** The [try: shutil.move ...; logging.info ...; moved_count += 1
    except Exception as e: logging.error ...] block shared by both modes. *)
Definition try_move (file_path destination : path) (label : string)
    (moved_count : nat) : M nat :=
  try_except
    (do shutil_move file_path destination;
     do logging_info ("Moved " +:+ name_of file_path +:+ " to " +:+ label +:+ "/");
     ret (moved_count + 1)%nat)
    (λ e,
     do logging_error ("Error moving " +:+ name_of file_path +:+ ": " +:+ exn_str e);
     ret moved_count).

(** A [for] loop over directory entries that threads a counter. *)
Fixpoint for_entries (body : string → nat → M nat) (names : list string)
    (count : nat) : M nat :=
  match names with
  | [] => ret count
  | name :: rest => do count' <- body name count; for_entries body rest count'
  end.

Variable self : FileOrganizer.

Fixpoint mkdir_categories (organized_dir : path) (categories : list string) : M unit :=
  match categories with
  | [] => ret tt
  | category :: rest =>
      do mkdir_exist_ok (organized_dir // category);
      mkdir_categories organized_dir rest
  end.

Definition create_organized_structure : M path :=
  let organized_dir := source_dir self // "Organized" in
  do mkdir_exist_ok organized_dir;
  do mkdir_categories organized_dir (map fst (file_types self));
  do mkdir_exist_ok (organized_dir // "Others");
  ret organized_dir.

(** Body of the loop of [organize_by_type] *)
Definition organize_by_type_body (organized_dir : path) (name : string)
    (moved_count : nat) : M nat :=
  let file_path := source_dir self // name in
  do t <- get_fs;
  if (is_file t file_path && negb (bool_decide (name = ".DS_Store")))%bool then
    let category := get_file_category os self name in
    let destination := organized_dir // category // name in
    do destination <- handle_duplicates destination;
    try_move file_path destination category moved_count
  else ret moved_count.

Definition organize_by_type : M unit :=
  do t <- get_fs;
  if negb (path_exists t (source_dir self)) then
    logging_error ("Source directory " +:+ path_str (source_dir self) +:+ " does not exist!")
  else
    do organized_dir <- create_organized_structure;
    do names <- iterdir (source_dir self);
    do moved_count <- for_entries (organize_by_type_body organized_dir) names 0%nat;
    logging_info ("Successfully organized " +:+ pretty moved_count +:+ " files!").

(** [s.zfill(width)] on a digit string *)
Definition zfill (width : nat) (s : string) : string :=
  String.concat "" (replicate (width - String.length s) "0") +:+ s.

(** [creation_time.strftime('%Y-%m')] *)
Definition strftime_Y_m (creation_time : datetime) : string :=
  zfill 4 (pretty (year creation_time)) +:+ "-" +:+ zfill 2 (pretty (month creation_time)).

(** [file_path.stat()] *)
Definition stat (p : path) : M file_data :=
  λ w, match fs w !! p with
       | Some (File f) => (Ok f, w)
       | _ => (Raise (FileNotFoundError p), w)
       end.

(** Body of the loop of [organize_by_date] *)
Definition organize_by_date_body (organized_dir : path) (name : string)
    (moved_count : nat) : M nat :=
  let file_path := source_dir self // name in
  do t <- get_fs;
  if (is_file t file_path && negb (bool_decide (name = ".DS_Store")))%bool then
    do st <- stat file_path;
    let creation_time := fromtimestamp os (st_ctime st) in
    let year_month := strftime_Y_m creation_time in
    let date_folder := organized_dir // year_month in
    do mkdir_exist_ok date_folder;
    let destination := date_folder // name in
    do destination <- handle_duplicates destination;
    try_move file_path destination year_month moved_count
  else ret moved_count.

Definition organize_by_date : M unit :=
  do t <- get_fs;
  if negb (path_exists t (source_dir self)) then
    logging_error ("Source directory " +:+ path_str (source_dir self) +:+ " does not exist!")
  else
    let organized_dir := source_dir self // "Organized_by_Date" in
    do mkdir_exist_ok organized_dir;
    do names <- iterdir (source_dir self);
    do moved_count <- for_entries (organize_by_date_body organized_dir) names 0%nat;
    logging_info ("Successfully organized " +:+ pretty moved_count +:+ " files by date!").

(** Body of the loop of [clean_empty_folders] *)
Definition clean_empty_folders_body (name : string) (removed_count : nat) : M nat :=
  let folder_path := source_dir self // name in
  do t <- get_fs;
  if is_dir t folder_path then
    do nonempty <- any_iterdir folder_path;
    if negb nonempty then
      try_except
        (do rmdir folder_path;
         do logging_info ("Removed empty folder: " +:+ name);
         ret (removed_count + 1)%nat)
        (λ e,
         do logging_error ("Error removing folder " +:+ name +:+ ": " +:+ exn_str e);
         ret removed_count)
    else ret removed_count
  else ret removed_count.

Definition clean_empty_folders : M unit :=
  do names <- iterdir (source_dir self);
  do removed_count <- for_entries clean_empty_folders_body names 0%nat;
  logging_info ("Removed " +:+ pretty removed_count +:+ " empty folders!").

End Organizer.

(** ** Command line: [main] after argument parsing *)

Inductive mode := ByType | ByDate.

Record args := { directory : path; mode_of : mode; clean : bool }.

Definition main (os : platform) (a : args) : M unit :=
  let organizer := FileOrganizer_init (directory a) in
  do match mode_of a with
     | ByType => organize_by_type os organizer
     | ByDate => organize_by_date os organizer
     end;
  if clean a then clean_empty_folders os organizer else ret tt.

(** ** Vocabulary of the statements *)

(** Decimal value of a digit string (what [int(s)] returns on digits). *)
Definition digits_value (s : string) : Z :=
  fold_left (λ acc c, 10 * acc + (Z.of_nat (nat_of_ascii c) - 48)) (list_ascii_of_string s) 0.

Definition is_digit (c : ascii) : bool :=
  let n := nat_of_ascii c in ((48 <=? n)%nat && (n <=? 57)%nat)%bool.

Definition all_digits (s : string) : bool := forallb is_digit (list_ascii_of_string s).

(** The invariant of Python's [datetime] on the two fields the script reads:
    [MINYEAR <= year <= MAXYEAR] and [1 <= month <= 12]. *)
Definition valid_datetime (d : datetime) : Prop :=
  1 ≤ year d ≤ 9999 ∧ 1 ≤ month d ≤ 12.

(** The successive values of [destination] in the duplicate-name loop:
    the desired path first, then the numbered ones. *)
Definition candidate (original_destination : path) (k : nat) : path :=
  match k with
  | O => original_destination
  | S _ => numbered original_destination k
  end.

(** One change of the tree that loses nothing: a directory appears at a
    free path, a regular file below [root] goes to a free path below [root],
    or a regular file appears at a free path below [root] (what a failed
    copy leaves). *)
Inductive fs_step (root : path) : filesystem → filesystem → Prop :=
| fs_step_mkdir t p :
    t !! p = None → fs_step root t (<[p := Dir]> t)
| fs_step_move t src dst f :
    root `prefix_of` src → root `prefix_of` dst →
    t !! src = Some (File f) → t !! dst = None →
    fs_step root t (<[dst := File f]> (delete src t))
| fs_step_copy t dst g :
    root `prefix_of` dst → t !! dst = None →
    fs_step root t (<[dst := File g]> t).

Definition is_error (r : log_record) : bool :=
  match r with LogError _ => true | LogInfo _ => false end.

(** Number of error records in the log of a world. *)
Definition error_count (w : world) : nat := length (filter (λ r, is_error r = true) (log w)).

(** A run from [w] to [w']: the tree changed by such steps only, the log
    grew at its end, and as long as no error record was added the number of
    regular files below [root] is the same. *)
Definition evolves (root : path) (w w' : world) : Prop :=
  rtc (fs_step root) (fs w) (fs w')
  ∧ (∃ new, log w' = log w ++ new)
  ∧ (error_count w' = error_count w → file_count root (fs w') = file_count root (fs w)).

(** [m] only ever takes a world to one related by [R], whether it returns or
    raises. *)
Definition stays (R : world → world → Prop) {A} (m : M A) : Prop :=
  ∀ w, R w (m w).2.

(** What a zero-padded field must satisfy: the width, only digits, and the
    decimal value of the number printed. *)
Definition padded_ok (width : nat) (x : Z) : bool :=
  let s := zfill width (pretty x) in
  (String.length s =? width)%nat && all_digits s && (digits_value s =? x).

(** The test of both loops: a regular file not named [.DS_Store]. *)
Definition eligible (t : filesystem) (src : path) (name : string) : bool :=
  (is_file t (src // name) && negb (bool_decide (name = ".DS_Store")))%bool.

Definition log_moved (name label : string) : log_record :=
  LogInfo ("Moved " +:+ name +:+ " to " +:+ label +:+ "/").

Definition log_move_error (name : string) (e : exn) : log_record :=
  LogError ("Error moving " +:+ name +:+ ": " +:+ exn_str e).

(** The tree once [folder] is there: as it was, or with the new directory. *)
Inductive with_folder (t : filesystem) (folder : path) : filesystem → Prop :=
| folder_there : with_folder t folder t
| folder_made : t !! folder = None → with_folder t folder (<[folder := Dir]> t).

(** What a failed move can make of tree [t1]: nothing, or a regular file
    more at a free path three levels below [src]. *)
Inductive leftover_at (src : path) (t1 : filesystem) : filesystem → Prop :=
| nothing_left : leftover_at src t1 t1
| copy_left d g :
    src `prefix_of` d → length d = (length src + 3)%nat → t1 !! d = None →
    leftover_at src t1 (<[d := File g]> t1).

(** What one turn of an organize loop can do to the entry [name] of [src],
    from world [w] with counter [c]: pass over it; raise, the destination
    folder made or not; move the file; leave it with an error record, and
    possibly a copy at the destination. *)
Inductive visited (src : path) (name : string) (w : world) (c : nat) :
    result nat * world → Prop :=
| visit_skipped :
    eligible (fs w) src name = false →
    visited src name w c (Ok c, w)
| visit_raised e f t1 folder :
    fs w !! (src // name) = Some (File f) → name ≠ ".DS_Store" →
    length folder = (length src + 2)%nat →
    with_folder (fs w) folder t1 →
    visited src name w c (Raise e, {| fs := t1; log := log w |})
| visit_moved f t1 d label :
    fs w !! (src // name) = Some (File f) → name ≠ ".DS_Store" →
    src `prefix_of` d → length d = (length src + 3)%nat →
    with_folder (fs w) (parent d) t1 → t1 !! d = None →
    visited src name w c
      (Ok (c + 1)%nat,
       {| fs := <[d := File f]> (delete (src // name) t1);
          log := log w ++ [log_moved name label] |})
| visit_left f t1 t2 folder e :
    fs w !! (src // name) = Some (File f) → name ≠ ".DS_Store" →
    length folder = (length src + 2)%nat →
    with_folder (fs w) folder t1 → leftover_at src t1 t2 →
    visited src name w c
      (Ok c, {| fs := t2; log := log w ++ [log_move_error name e] |}).

(** The exact outcome of the tail both loops share — resolve the name, move,
    log — for the file [name] of [src] with data [f], sent to [folder], from
    tree [t1] and log [lg] with counter [c].  [k] counts the candidates found
    taken before the loop left. *)
Inductive placed (os : platform) (src : path) (name : string) (f : file_data)
    (folder : path) (label : string) (lg : list log_record) (t1 : filesystem) (c : nat) :
    result nat * world → Prop :=
| placed_refused k msg :
    (∀ i, (i < k)%nat →
          exists_fault os (candidate (folder // name) i) = None
          ∧ is_Some (t1 !! candidate (folder // name) i)) →
    exists_fault os (candidate (folder // name) k) = Some msg →
    placed os src name f folder label lg t1 c
      (Raise (OSError msg), {| fs := t1; log := lg |})
| placed_moved k :
    (∀ i, (i < k)%nat →
          exists_fault os (candidate (folder // name) i) = None
          ∧ is_Some (t1 !! candidate (folder // name) i)) →
    exists_fault os (candidate (folder // name) k) = None →
    t1 !! candidate (folder // name) k = None →
    move_fault os (src // name) (candidate (folder // name) k) = None →
    t1 !! folder = Some Dir →
    placed os src name f folder label lg t1 c
      (Ok (c + 1)%nat,
       {| fs := <[candidate (folder // name) k := File f]> (delete (src // name) t1);
          log := lg ++ [log_moved name label] |})
| placed_no_folder k :
    (∀ i, (i < k)%nat →
          exists_fault os (candidate (folder // name) i) = None
          ∧ is_Some (t1 !! candidate (folder // name) i)) →
    exists_fault os (candidate (folder // name) k) = None →
    t1 !! candidate (folder // name) k = None →
    move_fault os (src // name) (candidate (folder // name) k) = None →
    t1 !! folder ≠ Some Dir →
    placed os src name f folder label lg t1 c
      (Ok c,
       {| fs := t1;
          log := lg ++ [log_move_error name
                          (match t1 !! folder with
                           | Some (File _) => NotADirectoryError (candidate (folder // name) k)
                           | _ => FileNotFoundError (candidate (folder // name) k)
                           end)] |})
| placed_failed k msg leftover :
    (∀ i, (i < k)%nat →
          exists_fault os (candidate (folder // name) i) = None
          ∧ is_Some (t1 !! candidate (folder // name) i)) →
    exists_fault os (candidate (folder // name) k) = None →
    t1 !! candidate (folder // name) k = None →
    move_fault os (src // name) (candidate (folder // name) k) = Some (msg, leftover) →
    placed os src name f folder label lg t1 c
      (Ok c,
       {| fs := left_behind (src // name) (candidate (folder // name) k) leftover t1;
          log := lg ++ [log_move_error name (OSError msg)] |}).

(** The shape both organize passes have: the existence test, a prelude that
    makes the destination root, the listing, the loop, the summary. *)
Definition organize_pass (os : platform) (src : path) (prelude : M path)
    (body : path → string → nat → M nat) (summary : nat → string) : M unit :=
  do t <- get_fs;
  if negb (path_exists t src) then
    logging_error ("Source directory " +:+ path_str src +:+ " does not exist!")
  else
    do organized_dir <- prelude;
    do names <- iterdir os src;
    do moved_count <- for_entries (body organized_dir) names 0%nat;
    logging_info (summary moved_count).

Definition summary_by_type (moved_count : nat) : string :=
  "Successfully organized " +:+ pretty moved_count +:+ " files!".

Definition summary_by_date (moved_count : nat) : string :=
  "Successfully organized " +:+ pretty moved_count +:+ " files by date!".

(** The eligible entries of [src], as the listing gives them. *)
Definition eligible_entries (t : filesystem) (src : path) : list string :=
  filter (λ n, eligible t src n = true) (entries t src).

(** [mkdir(exist_ok=True)] on each path of a list, in order. *)
Fixpoint mkdir_all (ps : list path) : M unit :=
  match ps with
  | [] => ret tt
  | p :: rest => do mkdir_exist_ok p; mkdir_all rest
  end.

(** The folders [create_organized_structure] makes, in order. *)
Definition organized_folders (self : FileOrganizer) : list path :=
  let organized_dir := source_dir self // "Organized" in
  organized_dir :: map (joinpath organized_dir) (map fst (file_types self))
    ++ [organized_dir // "Others"].

(** The dispatch of [main] on [args.mode]. *)
Definition organize (os : platform) (self : FileOrganizer) (m : mode) : M unit :=
  match m with
  | ByType => organize_by_type os self
  | ByDate => organize_by_date os self
  end.

Definition summary (m : mode) : nat → string :=
  match m with
  | ByType => summary_by_type
  | ByDate => summary_by_date
  end.

(** ** A concrete platform and directory for the examples *)

Module Example.

(** Lists as stored, nothing fails, and a crude calendar (years of 365 days
    cut in twelve equal months) stands for the local-time conversion. *)
Definition os : platform :=
  {| scandir_order := λ l, l;
     scandir_order_perm := λ l, Permutation_refl l;
     listdir_fault := λ _, None;
     exists_fault := λ _, None;
     move_fault := λ _ _, None;
     rmdir_fault := λ _, None;
     fromtimestamp := λ t,
       {| year := 1970 + t / 31536000;
          month := 1 + (t mod 31536000) / 2628000;
          day := 1 |};
     str_lower := Str.ascii_lower;
     str_lower_ascii := λ s _, eq_refl |}.

Definition downloads : path := ["home"; "user"; "Downloads"].

Definition organizer : FileOrganizer := FileOrganizer_init downloads.

Definition a_file (text : string) : node :=
  File {| st_ctime := 1704067200; content := text |}.

Definition skeleton : list (path * node) :=
  [ ([], Dir); (["home"], Dir); (["home"; "user"], Dir); (downloads, Dir) ].

(** The scenario of the specification, with the noise file, a hidden file,
    an empty and a non-empty folder besides. *)
Definition tree : filesystem :=
  list_to_map
    (skeleton ++
     [ (downloads // "photo.JPG", a_file "jpeg");
       (downloads // "report.pdf", a_file "pdf");
       (downloads // "song.mp3", a_file "mp3");
       (downloads // "notes", a_file "text");
       (downloads // ".DS_Store", a_file "finder");
       (downloads // ".gitignore", a_file "ignore");
       (downloads // "Old", Dir);
       (downloads // "Keep", Dir);
       (downloads // "Keep" // "a.txt", a_file "kept") ]).

Definition start : world := {| fs := tree; log := [] |}.

(** One file, and a regular file where its month folder should go. *)
Definition blocked_tree : filesystem :=
  list_to_map
    (skeleton ++
     [ (downloads // "x.txt", a_file "x");
       (downloads // "Organized_by_Date", Dir);
       (downloads // "Organized_by_Date" // "2024-01", a_file "not a folder") ]).

(** No [Downloads] at all. *)
Definition bare_tree : filesystem :=
  list_to_map [ ([], Dir); (["home"], Dir); (["home"; "user"], Dir) ].

End Example.

(** ** Further trees for the examples *)

Module Cases.

(** A regular file named "Organized" sits where the destination root goes. *)
Definition organized_is_a_file : filesystem :=
  list_to_map
    (Example.skeleton ++
     [ (Example.downloads // "report.pdf", Example.a_file "pdf");
       (Example.downloads // "Organized", Example.a_file "not a folder") ]).

(** An empty folder, a folder with a file in it, and a loose file. *)
Definition old_and_keep : filesystem :=
  list_to_map
    (Example.skeleton ++
     [ (Example.downloads // "Old", Dir);
       (Example.downloads // "Keep", Dir);
       (Example.downloads // "Keep" // "a.txt", Example.a_file "kept");
       (Example.downloads // "loose.txt", Example.a_file "loose") ]).

(** As [Example.os], but the folder "Old" cannot be removed. *)
Definition stubborn_os : platform :=
  {| scandir_order := λ l, l;
     scandir_order_perm := λ l, Permutation_refl l;
     listdir_fault := λ _, None;
     exists_fault := λ _, None;
     move_fault := λ _ _, None;
     rmdir_fault := λ p,
       if bool_decide (p = Example.downloads // "Old")
       then Some "[Errno 13] Permission denied" else None;
     fromtimestamp := fromtimestamp Example.os;
     str_lower := Str.ascii_lower;
     str_lower_ascii := λ s _, eq_refl |}.

(** A single file in the source directory. *)
Definition one_file : filesystem :=
  list_to_map
    (Example.skeleton ++ [ (Example.downloads // "x.txt", Example.a_file "x") ]).

(** As [Example.os], but the move of "x.txt" fails once its copy is written
    (the source cannot be unlinked). *)
Definition leaky_os : platform :=
  {| scandir_order := λ l, l;
     scandir_order_perm := λ l, Permutation_refl l;
     listdir_fault := λ _, None;
     exists_fault := λ _, None;
     move_fault := λ src _,
       if bool_decide (src = Example.downloads // "x.txt")
       then Some ("[Errno 13] Permission denied",
                  Some {| st_ctime := 1704067200; content := "x" |})
       else None;
     rmdir_fault := λ _, None;
     fromtimestamp := fromtimestamp Example.os;
     str_lower := Str.ascii_lower;
     str_lower_ascii := λ s _, eq_refl |}.

(** As [Example.os], but the existence of anything named "x.txt" cannot be
    checked. *)
Definition deaf_os : platform :=
  {| scandir_order := λ l, l;
     scandir_order_perm := λ l, Permutation_refl l;
     listdir_fault := λ _, None;
     exists_fault := λ p,
       if bool_decide (name_of p = "x.txt")
       then Some "[Errno 13] Permission denied" else None;
     move_fault := λ _ _, None;
     rmdir_fault := λ _, None;
     fromtimestamp := fromtimestamp Example.os;
     str_lower := Str.ascii_lower;
     str_lower_ascii := λ s _, eq_refl |}.

(** A file and an empty folder that cannot be listed. *)
Definition locked : filesystem :=
  list_to_map
    (Example.skeleton ++
     [ (Example.downloads // "Locked", Dir);
       (Example.downloads // "x.txt", Example.a_file "x") ]).

(** As [Example.os], but the folder "Locked" cannot be listed. *)
Definition locked_os : platform :=
  {| scandir_order := λ l, l;
     scandir_order_perm := λ l, Permutation_refl l;
     listdir_fault := λ p,
       if bool_decide (p = Example.downloads // "Locked")
       then Some "[Errno 13] Permission denied" else None;
     exists_fault := λ _, None;
     move_fault := λ _ _, None;
     rmdir_fault := λ _, None;
     fromtimestamp := fromtimestamp Example.os;
     str_lower := Str.ascii_lower;
     str_lower_ascii := λ s _, eq_refl |}.

End Cases.

(** A direct child of [src] that is a directory without entries: the test
    of the cleanup loop. *)
Definition empty_dir (t : filesystem) (src : path) (name : string) : bool :=
  (is_dir t (src // name)
   && match entries t (src // name) with [] => true | _ :: _ => false end)%bool.

Definition summary_clean (removed_count : nat) : string :=
  "Removed " +:+ pretty removed_count +:+ " empty folders!".

(** The folder a file is sent to: that of its category, or of the month of
    its creation time. *)
Definition destination_folder (os : platform) (self : FileOrganizer) (m : mode)
    (name : string) (f : file_data) : path :=
  match m with
  | ByType => source_dir self // "Organized" // get_file_category os self name
  | ByDate =>
      source_dir self // "Organized_by_Date" // strftime_Y_m (fromtimestamp os (st_ctime f))
  end.




(** * Properties *)

(** ** The classifier *)


Lemma category_of_extension_hit (table : list (string * list string)) (e : string) :
  category_of_extension table e ≠ "Others" →
  ∃ extensions, (category_of_extension table e, extensions) ∈ table ∧ e ∈ extensions.
Proof.
  induction table as [|[c exts] rest IH]; simpl; [done|].
  case_bool_decide as Hin; intros Hne.
  - exists exts. split; [by left | done].
  - destruct (IH Hne) as (exts' & ? & ?). exists exts'. split; [by right | done].
Qed.









(** ** The date bucketer *)

Lemma year_padded_ok (y : Z) : 1 ≤ y ≤ 9999 → padded_ok 4 y = true.
Proof.
  intros Hy.
  assert (Hall : forallb (padded_ok 4) (seqZ 1 9999) = true) by (vm_compute; reflexivity).
  rewrite forallb_forall in Hall. apply Hall.
  apply list_elem_of_In, elem_of_seqZ. lia.
Qed.

Lemma month_padded_ok (m : Z) : 1 ≤ m ≤ 12 → padded_ok 2 m = true.
Proof.
  intros Hm.
  assert (Hall : forallb (padded_ok 2) (seqZ 1 12) = true) by (vm_compute; reflexivity).
  rewrite forallb_forall in Hall. apply Hall.
  apply list_elem_of_In, elem_of_seqZ. lia.
Qed.

Lemma string_app_length (s1 s2 : string) :
  String.length (s1 +:+ s2) = (String.length s1 + String.length s2)%nat.
Proof. induction s1 as [|a s1 IH]; simpl; [done | by rewrite IH]. Qed.

Lemma string_app_inj_length (s1 s2 r1 r2 : string) :
  String.length s1 = String.length s2 → s1 +:+ r1 = s2 +:+ r2 → s1 = s2 ∧ r1 = r2.
Proof.
  revert s2. induction s1 as [|a s1 IH]; intros [|b s2] Hlen Heq; simplify_eq/=; [done|].
  destruct (IH s2) as [-> ->]; done.
Qed.

Lemma strftime_Y_m_inj (d1 d2 : datetime) :
  valid_datetime d1 → valid_datetime d2 →
  strftime_Y_m d1 = strftime_Y_m d2 → year d1 = year d2 ∧ month d1 = month d2.
Proof.
  intros [Hy1 Hm1] [Hy2 Hm2] Heq. unfold strftime_Y_m in Heq.
  pose proof (year_padded_ok _ Hy1) as Y1. pose proof (year_padded_ok _ Hy2) as Y2.
  pose proof (month_padded_ok _ Hm1) as M1. pose proof (month_padded_ok _ Hm2) as M2.
  unfold padded_ok in *.
  repeat match goal with H : _ && _ = true |- _ => apply andb_true_iff in H as [? ?] end.
  repeat match goal with H : (_ =? _)%nat = true |- _ => apply Nat.eqb_eq in H end.
  repeat match goal with H : (_ =? _) = true |- _ => apply Z.eqb_eq in H end.
  apply string_app_inj_length in Heq as [HY HM]; [|congruence].
  apply (inj (String.append "-")) in HM.
  split; congruence.
Qed.

(** C8.  The bucket of a creation timestamp is the label of its local-time
    date: four digits of the year, a dash, two digits of the month (zero
    padded).  Two timestamps get the same bucket exactly when their local
    dates have the same year and month. *)
Theorem date_bucket_is_year_month (os : platform) (t1 t2 : Z) :
  let d1 := fromtimestamp os t1 in
  let d2 := fromtimestamp os t2 in
  valid_datetime d1 → valid_datetime d2 →
  (∃ yyyy mm,
      strftime_Y_m d1 = yyyy +:+ "-" +:+ mm
      ∧ String.length yyyy = 4%nat ∧ all_digits yyyy = true ∧ digits_value yyyy = year d1
      ∧ String.length mm = 2%nat ∧ all_digits mm = true ∧ digits_value mm = month d1)
  ∧ (strftime_Y_m d1 = strftime_Y_m d2 ↔ year d1 = year d2 ∧ month d1 = month d2).
Proof.
  intros d1 d2 V1 V2. split.
  - destruct V1 as [Hy Hm].
    pose proof (year_padded_ok _ Hy) as Y. pose proof (month_padded_ok _ Hm) as Mo.
    unfold padded_ok in *.
    repeat match goal with H : _ && _ = true |- _ => apply andb_true_iff in H as [? ?] end.
    repeat match goal with H : (_ =? _)%nat = true |- _ => apply Nat.eqb_eq in H end.
    repeat match goal with H : (_ =? _) = true |- _ => apply Z.eqb_eq in H end.
    exists (zfill 4 (pretty (year d1))), (zfill 2 (pretty (month d1))).
    repeat split; done.
  - split; [by apply strftime_Y_m_inj|].
    intros [Hy Hm]. unfold strftime_Y_m. by rewrite Hy, Hm.
Qed.

(** ** Paths and directory listings *)

Lemma parent_join (d : path) (n : string) : parent (d // n) = d.
Proof. apply removelast_last. Qed.

Lemma name_of_join (d : path) (n : string) : name_of (d // n) = n.
Proof. apply last_last. Qed.

Lemma join_inj (d1 d2 : path) (n1 n2 : string) : d1 // n1 = d2 // n2 → d1 = d2 ∧ n1 = n2.
Proof. intros H. apply app_inj_tail in H. done. Qed.

Lemma join_ne_self (d : path) (n : string) : d // n ≠ d.
Proof.
  intros H. apply (f_equal length) in H. unfold joinpath in H.
  rewrite length_app in H. simpl in H. lia.
Qed.

Lemma child_name_spec (d p : path) (n : string) : child_name d p = Some n ↔ p = d // n.
Proof.
  unfold joinpath. revert p. induction d as [|x d IH]; intros p; simpl.
  - destruct p as [|y [|z p]]; split; intros H; by simplify_eq.
  - destruct p as [|y p]; [split; intros H; by simplify_eq|].
    case_decide as Hxy.
    + subst y. rewrite IH. split; intros H; by simplify_eq.
    + split; intros H; by simplify_eq.
Qed.

Lemma elem_of_entries (t : filesystem) (d : path) (n : string) :
  n ∈ entries t d ↔ is_Some (t !! (d // n)).
Proof.
  unfold entries. rewrite list_elem_of_omap. split.
  - intros ([p x] & Hin & Hc). simpl in Hc. apply child_name_spec in Hc as ->.
    apply elem_of_map_to_list in Hin. eauto.
  - intros [x Hx]. exists (d // n, x). split.
    + by apply elem_of_map_to_list.
    + simpl. by apply child_name_spec.
Qed.

Lemma length_entries_le (t : filesystem) (d : path) : (length (entries t d) ≤ size t)%nat.
Proof.
  unfold entries. rewrite <- length_map_to_list.
  induction (map_to_list t) as [|kv l IH]; [done|].
  change (omap ?f (kv :: l)) with
    (match f kv with Some y => y :: omap f l | None => omap f l end).
  destruct (child_name d kv.1); simpl; lia.
Qed.

Lemma path_exists_true (t : filesystem) (p : path) :
  path_exists t p = true ↔ is_Some (t !! p).
Proof. unfold path_exists. apply bool_decide_eq_true. Qed.

Lemma path_exists_false (t : filesystem) (p : path) :
  path_exists t p = false ↔ t !! p = None.
Proof.
  unfold path_exists. rewrite bool_decide_eq_false. symmetry. apply eq_None_not_Some.
Qed.

(** ** Stems, suffixes and numbered names *)

Lemma string_app_cons (a : ascii) (s r : string) : String a s +:+ r = String a (s +:+ r).
Proof. reflexivity. Qed.

Lemma string_app_empty_r (s : string) : s +:+ "" = s.
Proof. induction s as [|a s IH]; [done|]. by rewrite string_app_cons, IH. Qed.

Lemma take_drop_string (n : nat) (s : string) : Str.take n s +:+ Str.drop n s = s.
Proof.
  revert s. induction n as [|n IH]; intros [|a s]; try done.
  change (String a (Str.take n s) +:+ Str.drop n s = String a s).
  by rewrite string_app_cons, IH.
Qed.

Lemma stem_suffix (name : string) : stem name +:+ suffix name = name.
Proof.
  unfold stem, suffix. destruct (_ && _)%bool.
  - apply take_drop_string.
  - apply string_app_empty_r.
Qed.

Lemma string_app_inj_r (s1 s2 r : string) : s1 +:+ r = s2 +:+ r → s1 = s2.
Proof.
  revert s2. induction s1 as [|a s1 IH]; intros [|b s2] H; try done.
  - apply (f_equal String.length) in H. rewrite !string_app_length in H. simpl in H. lia.
  - apply (f_equal String.length) in H. rewrite !string_app_length in H. simpl in H. lia.
  - rewrite !string_app_cons in H. injection H as -> H. f_equal. by apply IH.
Qed.

Lemma numbered_join (d : path) (name : string) (c : nat) :
  numbered (d // name) c = d // (stem name +:+ "_" +:+ pretty c +:+ suffix name).
Proof. unfold numbered. by rewrite parent_join, name_of_join. Qed.

Lemma numbered_inj (d : path) (name : string) (i j : nat) :
  numbered (d // name) i = numbered (d // name) j → i = j.
Proof.
  rewrite !numbered_join. intros [_ H]%join_inj.
  apply (inj (String.append (stem name))) in H.
  apply (inj (String.append "_")) in H.
  apply string_app_inj_r in H. by apply (inj pretty) in H.
Qed.

Lemma numbered_ne_original (d : path) (name : string) (i : nat) :
  numbered (d // name) i ≠ d // name.
Proof.
  rewrite numbered_join. intros [_ H]%join_inj.
  rewrite <- (stem_suffix name) in H at 3.
  apply (inj (String.append (stem name))) in H.
  apply (f_equal String.length) in H. rewrite !string_app_length in H.
  simpl in H. lia.
Qed.

Lemma candidate_inj (d : path) (name : string) (i j : nat) :
  candidate (d // name) i = candidate (d // name) j → i = j.
Proof.
  destruct i as [|i], j as [|j]; simpl; intros H; try done.
  - symmetry in H. by apply numbered_ne_original in H.
  - by apply numbered_ne_original in H.
  - by apply numbered_inj in H.
Qed.

Lemma candidate_in_dir (d : path) (name : string) (k : nat) :
  ∃ n, candidate (d // name) k = d // n.
Proof. destruct k; simpl; [eauto | rewrite numbered_join; eauto]. Qed.

Lemma candidate_parent (dir : path) (name : string) (k : nat) :
  parent (candidate (dir // name) k) = dir.
Proof. destruct (candidate_in_dir dir name k) as [n ->]. apply parent_join. Qed.

Lemma candidate_length (dir : path) (name : string) (k : nat) :
  length (candidate (dir // name) k) = S (length dir).
Proof.
  destruct (candidate_in_dir dir name k) as [n ->]. unfold joinpath.
  rewrite length_app. simpl. lia.
Qed.

(** Every candidate that exists is an entry of the directory, and candidates
    are pairwise distinct: only as many can exist as the directory has entries. *)
Lemma existing_candidates_bound (t : filesystem) (d : path) (name : string) (k : nat) :
  (∀ i, (i < k)%nat → path_exists t (candidate (d // name) i) = true) →
  (k ≤ length (entries t d))%nat.
Proof.
  intros Hex.
  set (names := omap (λ i, child_name d (candidate (d // name) i)) (seq 0 k)).
  assert (Hlen : length names = k).
  { unfold names. clear Hex. generalize 0%nat. induction k as [|k IH]; intros b; simpl; [done|].
    destruct (candidate_in_dir d name b) as [n Hn]. rewrite Hn.
    rewrite (proj2 (child_name_spec d (d // n) n) eq_refl). simpl. by rewrite IH. }
  rewrite <- Hlen. apply submseteq_length, NoDup_submseteq.
  - unfold names. clear Hlen Hex. generalize 0%nat.
    induction k as [|k IH]; intros b; simpl; [constructor|].
    destruct (candidate_in_dir d name b) as [n Hn]. rewrite Hn.
    rewrite (proj2 (child_name_spec d (d // n) n) eq_refl). simpl.
    constructor; [|apply IH].
    rewrite list_elem_of_omap. intros (i & Hi & Hc).
    apply child_name_spec in Hc. rewrite <- Hn in Hc.
    apply candidate_inj in Hc. subst i.
    apply elem_of_seq in Hi. lia.
  - intros n. unfold names. rewrite list_elem_of_omap. intros (i & Hi & Hc).
    apply child_name_spec in Hc. apply elem_of_entries.
    rewrite <- Hc. apply path_exists_true, Hex. apply elem_of_seq in Hi. lia.
Qed.

(** ** The duplicate-name loop *)




(** Where every check answers, the loop the script runs is [duplicate_loop]. *)
Lemma while_destination_exists_answered (os : platform) (fuel : nat) (od d : path)
    (c : nat) (w : world) :
  (∀ p, exists_fault os p = None) →
  while_destination_exists os fuel od d c w
  = match duplicate_loop fuel (fs w) od d c with
    | Some (d', _) => (Ok d', w)
    | None => (Raise OutOfFuel, w)
    end.
Proof.
  intros Hnf. revert d c. induction fuel as [|fuel IH]; intros d c; [done|].
  cbn [while_destination_exists duplicate_loop]. unfold bind, exists_. rewrite Hnf.
  destruct (path_exists (fs w) d); [apply IH | done].
Qed.

Lemma while_destination_exists_cases (os : platform) (w : world) (dir : path) (name : string)
    (fuel k : nat) :
  (∀ i, (i < k)%nat → exists_fault os (candidate (dir // name) i) = None
                      ∧ is_Some (fs w !! candidate (dir // name) i)) →
  (length (entries (fs w) dir) < fuel + k)%nat →
  ∃ k', (k' ≤ length (entries (fs w) dir))%nat
    ∧ (∀ i, (i < k')%nat → exists_fault os (candidate (dir // name) i) = None
                           ∧ is_Some (fs w !! candidate (dir // name) i))
    ∧ ((exists_fault os (candidate (dir // name) k') = None
        ∧ fs w !! candidate (dir // name) k' = None
        ∧ while_destination_exists os fuel (dir // name) (candidate (dir // name) k) (S k) w
          = (Ok (candidate (dir // name) k'), w))
       ∨ (∃ msg, exists_fault os (candidate (dir // name) k') = Some msg
          ∧ while_destination_exists os fuel (dir // name) (candidate (dir // name) k) (S k) w
            = (Raise (OSError msg), w))).
Proof.
  revert k. induction fuel as [|fuel IH]; intros k Hinv Hfuel.
  - assert (k ≤ length (entries (fs w) dir))%nat; [|simpl in Hfuel; lia].
    apply existing_candidates_bound with (name := name).
    intros i Hi. apply path_exists_true. by apply Hinv.
  - assert (k ≤ length (entries (fs w) dir))%nat as Hk.
    { apply existing_candidates_bound with (name := name).
      intros i Hi. apply path_exists_true. by apply Hinv. }
    cbn [while_destination_exists]. unfold bind, exists_.
    destruct (exists_fault os (candidate (dir // name) k)) as [msg|] eqn:Hfault.
    { exists k. split; [done|]. split; [done|]. right. by exists msg. }
    destruct (path_exists (fs w) (candidate (dir // name) k)) eqn:Hex.
    + replace (S k + 1)%nat with (S (S k)) by lia.
      change (numbered (dir // name) (S k)) with (candidate (dir // name) (S k)).
      apply IH; [|lia].
      intros i Hi. destruct (decide (i = k)) as [->|].
      * split; [done | by apply path_exists_true].
      * apply Hinv. lia.
    + exists k. split; [done|]. split; [done|]. left.
      split; [done|]. split; [by apply path_exists_false | done].
Qed.

(** The resolver leaves at the first candidate that is free or whose check
    is refused. *)
Lemma handle_duplicates_cases (os : platform) (w : world) (dir : path) (name : string) :
  ∃ k, (k ≤ length (entries (fs w) dir))%nat
    ∧ (∀ i, (i < k)%nat → exists_fault os (candidate (dir // name) i) = None
                          ∧ is_Some (fs w !! candidate (dir // name) i))
    ∧ ((exists_fault os (candidate (dir // name) k) = None
        ∧ fs w !! candidate (dir // name) k = None
        ∧ handle_duplicates os (dir // name) w = (Ok (candidate (dir // name) k), w))
       ∨ (∃ msg, exists_fault os (candidate (dir // name) k) = Some msg
          ∧ handle_duplicates os (dir // name) w = (Raise (OSError msg), w))).
Proof.
  unfold handle_duplicates.
  apply (while_destination_exists_cases os w dir name (S (size (fs w))) 0).
  - intros i Hi. lia.
  - pose proof (length_entries_le (fs w) dir). lia.
Qed.

(** C3.  The resolver never touches the tree or the log.  It goes through
    the desired path and the numbered names in order and leaves at the first
    one that is free, which it returns, or whose existence check the platform
    refuses, whose [OSError] it raises.  So a path it returns is in the
    directory of the desired one and nothing exists there; it is the desired
    path itself when that is free; and where the checks answer it does
    return.  With [a.txt] and [a_1.txt] present, [a_2.txt] absent and the
    three checks answered, a new [a.txt] resolves to [a_2.txt]. *)
Theorem resolver_returns_free_path (os : platform) (w : world) (dir : path) (name : string) :
  (∃ k, (k ≤ length (entries (fs w) dir))%nat
     ∧ (∀ i, (i < k)%nat → exists_fault os (candidate (dir // name) i) = None
                           ∧ is_Some (fs w !! candidate (dir // name) i))
     ∧ ((exists_fault os (candidate (dir // name) k) = None
         ∧ fs w !! candidate (dir // name) k = None
         ∧ handle_duplicates os (dir // name) w = (Ok (candidate (dir // name) k), w))
        ∨ (∃ msg, exists_fault os (candidate (dir // name) k) = Some msg
           ∧ handle_duplicates os (dir // name) w = (Raise (OSError msg), w))))
  ∧ (∀ d w', handle_duplicates os (dir // name) w = (Ok d, w') →
       w' = w ∧ fs w !! d = None ∧ parent d = dir
       ∧ (fs w !! (dir // name) = None → d = dir // name))
  ∧ (exists_fault os (dir // name) = None → fs w !! (dir // name) = None →
     handle_duplicates os (dir // name) w = (Ok (dir // name), w))
  ∧ ((∀ p, parent p = dir → exists_fault os p = None) →
     ∃ d, handle_duplicates os (dir // name) w = (Ok d, w))
  ∧ (name = "a.txt" →
     exists_fault os (dir // "a.txt") = None →
     exists_fault os (dir // "a_1.txt") = None →
     exists_fault os (dir // "a_2.txt") = None →
     is_Some (fs w !! (dir // "a.txt")) →
     is_Some (fs w !! (dir // "a_1.txt")) →
     fs w !! (dir // "a_2.txt") = None →
     handle_duplicates os (dir // name) w = (Ok (dir // "a_2.txt"), w)).
Proof.
  pose proof (handle_duplicates_cases os w dir name) as Hcases.
  split; [exact Hcases|].
  destruct Hcases as (k & _ & Hbusy & Hout).
  split; [|split; [|split]].
  - intros d w' Hrun.
    destruct Hout as [(_ & Hfree & Hk) | (msg & _ & Hk)]; rewrite Hk in Hrun; [|done].
    injection Hrun as <- <-. repeat split; try done.
    + apply candidate_parent.
    + intros Hnone. destruct k as [|k]; [done|].
      destruct (Hbusy 0%nat) as [_ [x Hx]]; [lia|]. simpl in Hx. congruence.
  - intros Hnf Hnone. destruct k as [|k].
    + destruct Hout as [(_ & _ & Hk) | (msg & Hmsg & _)]; [done|].
      simpl in Hmsg. congruence.
    + destruct (Hbusy 0%nat) as [_ [x Hx]]; [lia|]. simpl in Hx. congruence.
  - intros Hnf. destruct Hout as [(_ & _ & Hk) | (msg & Hmsg & _)]; [eauto|].
    rewrite Hnf in Hmsg; [done | apply candidate_parent].
  - intros -> E0 E1 E2 Ha Ha1 Ha2.
    assert (C1 : candidate (dir // "a.txt") 1 = dir // "a_1.txt")
      by (simpl; rewrite numbered_join; reflexivity).
    assert (C2 : candidate (dir // "a.txt") 2 = dir // "a_2.txt")
      by (simpl; rewrite numbered_join; reflexivity).
    destruct k as [|[|[|k]]].
    + destruct Hout as [(_ & Hfree & _) | (msg & Hmsg & _)].
      * simpl in Hfree. rewrite Hfree in Ha. by destruct Ha.
      * simpl in Hmsg. congruence.
    + destruct Hout as [(_ & Hfree & _) | (msg & Hmsg & _)].
      * rewrite C1 in Hfree. rewrite Hfree in Ha1. by destruct Ha1.
      * rewrite C1 in Hmsg. congruence.
    + destruct Hout as [(_ & _ & Hk) | (msg & Hmsg & _)].
      * by rewrite Hk, C2.
      * rewrite C2 in Hmsg. congruence.
    + destruct (Hbusy 2%nat) as [_ [x Hx]]; [lia|]. rewrite C2 in Hx. congruence.
Qed.


(** ** Steps that lose nothing *)

Lemma file_count_mkdir (root : path) (t : filesystem) (p : path) :
  t !! p = None → file_count root (<[p := Dir]> t) = file_count root t.
Proof.
  intros Hp. unfold file_count, files_under.
  rewrite map_filter_insert_not'; [done | simpl; by intros [_ ?] | intros y Hy; congruence].
Qed.


Lemma file_count_move (root : path) (t : filesystem) (src dst : path) (f : file_data) :
  root `prefix_of` src → root `prefix_of` dst →
  t !! src = Some (File f) → t !! dst = None →
  file_count root (<[dst := File f]> (delete src t)) = file_count root t.
Proof.
  intros Hs Hd Hsrc Hdst. unfold file_count, files_under.
  rewrite map_filter_insert_True by done.
  rewrite map_filter_delete.
  rewrite map_size_insert_None.
  - rewrite map_size_delete_Some.
    + assert (size (filter (λ kv : path * node, root `prefix_of` kv.1 ∧ is_node_file kv.2 = true) t) ≠ 0%nat); [|lia].
      apply (map_size_ne_0_lookup_2 _ src). exists (File f).
      by apply map_lookup_filter_Some.
    + exists (File f). by apply map_lookup_filter_Some.
  - destruct (decide (dst = src)) as [->|Hne]; [by rewrite lookup_delete_eq|].
    rewrite lookup_delete_ne by done.
    apply map_lookup_filter_None. left. done.
Qed.



Lemma fs_step_keeps_dir (root : path) (t t' : filesystem) (p : path) :
  fs_step root t t' → t !! p = Some Dir → t' !! p = Some Dir.
Proof.
  intros [t0 q Hq | t0 src dst f Hs Hd Hsrc Hdst | t0 dst g Hd Hdst] Hp.
  - rewrite lookup_insert_ne; [done | congruence].
  - rewrite lookup_insert_ne by congruence. rewrite lookup_delete_ne; [done | congruence].
  - rewrite lookup_insert_ne; [done | congruence].
Qed.

Lemma fs_steps_keeps_dir (root : path) (t t' : filesystem) (p : path) :
  rtc (fs_step root) t t' → t !! p = Some Dir → t' !! p = Some Dir.
Proof. induction 1; eauto using fs_step_keeps_dir. Qed.




Lemma error_count_app (w : world) (t : filesystem) (new : list log_record) :
  error_count {| fs := t; log := log w ++ new |}
  = (error_count w + length (filter (λ r, is_error r = true) new))%nat.
Proof. unfold error_count. simpl. by rewrite filter_app, length_app. Qed.

Lemma evolves_error_count (root : path) (w w' : world) :
  evolves root w w' → (error_count w ≤ error_count w')%nat.
Proof.
  intros (_ & [new Hnew] & _). unfold error_count. rewrite Hnew, filter_app, length_app. lia.
Qed.

#[global] Instance evolves_preorder (root : path) : PreOrder (evolves root).
Proof.
  split.
  - intros w. split; [done|]. split; [exists []; by rewrite app_nil_r | done].
  - intros w1 w2 w3 H12 H23.
    pose proof (evolves_error_count _ _ _ H12) as E12.
    pose proof (evolves_error_count _ _ _ H23) as E23.
    destruct H12 as (S12 & [n1 L1] & Q12), H23 as (S23 & [n2 L2] & Q23).
    split; [by etrans|]. split.
    + exists (n1 ++ n2). rewrite L2, L1. by rewrite app_assoc.
    + intros Heq. rewrite Q23 by lia. apply Q12. lia.
Qed.

(** A step of the tree alone, the log as it was. *)
Lemma evolves_tree (root : path) (w : world) (t1 : filesystem) :
  rtc (fs_step root) (fs w) t1 → file_count root t1 = file_count root (fs w) →
  evolves root w {| fs := t1; log := log w |}.
Proof.
  intros Hsteps Hcount. split; [done|]. split; [exists []; simpl; by rewrite app_nil_r | done].
Qed.

(** ** Combinators keep a preorder *)

Section Stays.

Context (R : world → world → Prop) `{!PreOrder R}.

Lemma stays_ret {A} (a : A) : stays R (ret a).
Proof. intros w. reflexivity. Qed.

Lemma stays_raise {A} (e : exn) : stays R (@raise A e).
Proof. intros w. reflexivity. Qed.

Lemma stays_bind {A B} (m : M A) (k : A → M B) :
  stays R m → (∀ a, stays R (k a)) → stays R (bind m k).
Proof.
  intros Hm Hk w. unfold bind. specialize (Hm w).
  destruct (m w) as [[a|e] w1]; simpl in *; [|done].
  etrans; [exact Hm | apply Hk].
Qed.

Lemma stays_try_except {A} (body : M A) (handler : exn → M A) :
  stays R body → (∀ e, stays R (handler e)) → stays R (try_except body handler).
Proof.
  intros Hm Hk w. unfold try_except. specialize (Hm w).
  destruct (body w) as [[a|e] w1]; simpl in *; [done|].
  etrans; [exact Hm | apply Hk].
Qed.

Lemma stays_for_entries (body : string → nat → M nat) (names : list string) (c : nat) :
  (∀ name c, stays R (body name c)) → stays R (for_entries body names c).
Proof.
  intros Hbody. revert c. induction names as [|n names IH]; intros c; simpl.
  - apply stays_ret.
  - apply stays_bind; [apply Hbody | intros c'; apply IH].
Qed.

Lemma stays_if {A} (b : bool) (m1 m2 : M A) :
  stays R m1 → stays R m2 → stays R (if b then m1 else m2).
Proof. by destruct b. Qed.

End Stays.

(** ** Primitives *)

Lemma eligible_true (t : filesystem) (src : path) (name : string) :
  eligible t src name = true ↔ (∃ f, t !! (src // name) = Some (File f)) ∧ name ≠ ".DS_Store".
Proof.
  unfold eligible, is_file. rewrite andb_true_iff, negb_true_iff, bool_decide_eq_false.
  destruct (t !! (src // name)) as [[f|]|]; split; intros [H1 H2]; try done.
  - split; [by exists f | done].
  - by destruct H1.
  - by destruct H1.
Qed.

Lemma is_dir_None (t : filesystem) (p : path) : t !! p = None → is_dir t p = false.
Proof. unfold is_dir. by intros ->. Qed.

(** [try_move] towards a free path always returns: the file is renamed when
    the platform lets it and the folder is there, else an error is logged,
    and a failed copy may stay. *)
Lemma try_move_free (os : platform) (w : world) (file_path d : path) (label : string)
    (c : nat) (f : file_data) :
  fs w !! file_path = Some (File f) → fs w !! d = None →
  try_move os file_path d label c w
  = match move_fault os file_path d with
    | Some (msg, leftover) =>
        (Ok c, {| fs := left_behind file_path d leftover (fs w);
                  log := log w ++ [log_move_error (name_of file_path) (OSError msg)] |})
    | None =>
        match fs w !! parent d with
        | Some Dir =>
            (Ok (c + 1)%nat,
             {| fs := <[d := File f]> (delete file_path (fs w));
                log := log w ++ [log_moved (name_of file_path) label] |})
        | Some (File _) =>
            (Ok c, {| fs := fs w;
                      log := log w ++ [log_move_error (name_of file_path)
                                         (NotADirectoryError d)] |})
        | None =>
            (Ok c, {| fs := fs w;
                      log := log w ++ [log_move_error (name_of file_path)
                                         (FileNotFoundError d)] |})
        end
    end.
Proof.
  intros Hsrc Hd.
  unfold try_move, try_except, bind, shutil_move, logging_info, logging_error, ret.
  rewrite (is_dir_None _ _ Hd). cbn [andb].
  destruct (move_fault os file_path d) as [[msg leftover]|] eqn:Hfault; [done|].
  unfold os_rename. rewrite Hsrc, Hd.
  by destruct (fs w !! parent d) as [[g|]|] eqn:Hpar.
Qed.

Lemma left_behind_cases (src : path) (file_path d : path) (leftover : option file_data)
    (t : filesystem) :
  src `prefix_of` d → length d = (length src + 3)%nat → t !! d = None →
  leftover_at src t (left_behind file_path d leftover t).
Proof.
  intros Hpre Hlen Hfree. unfold left_behind.
  destruct leftover as [g|]; [|constructor].
  destruct (is_file t file_path && is_dir t (parent d) && negb (is_dir t d))%bool;
    by constructor.
Qed.

Lemma mkdir_exist_ok_cases (w : world) (p : path) :
  (∃ e, mkdir_exist_ok p w = (Raise e, w) ∧ fs w !! p ≠ Some Dir)
  ∨ (∃ t1, mkdir_exist_ok p w = (Ok tt, {| fs := t1; log := log w |})
           ∧ with_folder (fs w) p t1 ∧ t1 !! p = Some Dir).
Proof.
  unfold mkdir_exist_ok. destruct (fs w !! p) as [[f|]|] eqn:Hp.
  - left. by eexists.
  - right. exists (fs w). destruct w; simpl in *. repeat split; [constructor | done].
  - destruct (fs w !! parent p) as [[f|]|].
    + left. by eexists.
    + right. exists (<[p := Dir]> (fs w)). repeat split.
      * by constructor.
      * by rewrite lookup_insert_eq.
    + left. by eexists.
Qed.

Lemma with_folder_lookup (t t1 : filesystem) (folder p : path) :
  with_folder t folder t1 → p ≠ folder → t1 !! p = t !! p.
Proof. intros [|Hnone] Hne; [done|]. by rewrite lookup_insert_ne. Qed.

Lemma with_folder_file (t t1 : filesystem) (folder p : path) (f : file_data) :
  with_folder t folder t1 → t !! p = Some (File f) → t1 !! p = Some (File f).
Proof.
  intros [|Hnone] Hp; [done|]. rewrite lookup_insert_ne; [done | congruence].
Qed.

Lemma with_folder_steps (root : path) (t t1 : filesystem) (folder : path) :
  with_folder t folder t1 → rtc (fs_step root) t t1.
Proof. intros [|Hnone]; [done|]. apply rtc_once. by constructor. Qed.

(** ** One turn of each loop *)

Lemma join_length (d : path) (n : string) : length (d // n) = S (length d).
Proof. unfold joinpath. rewrite length_app. simpl. lia. Qed.


Lemma candidate_prefix (src dir : path) (name : string) (k : nat) :
  src `prefix_of` dir → src `prefix_of` candidate (dir // name) k.
Proof.
  intros Hpre. destruct (candidate_in_dir dir name k) as [n ->].
  by apply prefix_app_r.
Qed.

Lemma prefix_join (src dir : path) (n : string) : src `prefix_of` dir → src `prefix_of` dir // n.
Proof. intros. by apply prefix_app_r. Qed.

(** The tail both loops share, from a world where the file is there. *)
Lemma place_file_placed (os : platform) (src folder : path) (name label : string)
    (w : world) (c : nat) (f : file_data) :
  fs w !! (src // name) = Some (File f) →
  placed os src name f folder label (log w) (fs w) c
    ((do destination <- handle_duplicates os (folder // name);
      try_move os (src // name) destination label c) w).
Proof.
  intros Hf.
  destruct (handle_duplicates_cases os w folder name)
    as (k & _ & Hbusy & [(Hnf & Hfree & Hk) | (msg & Hmsg & Hk)]);
    unfold bind; rewrite Hk.
  - rewrite (try_move_free os w _ _ label c f Hf Hfree).
    rewrite name_of_join, candidate_parent.
    destruct (move_fault os (src // name) (candidate (folder // name) k))
      as [[msg leftover]|] eqn:Hfault.
    + by eapply placed_failed.
    + destruct (fs w !! folder) as [[g|]|] eqn:Hfolder.
      * pose proof (placed_no_folder os src name f folder label (log w) (fs w) c k
                      Hbusy Hnf Hfree Hfault) as Hp.
        rewrite Hfolder in Hp. by apply Hp.
      * by apply placed_moved.
      * pose proof (placed_no_folder os src name f folder label (log w) (fs w) c k
                      Hbusy Hnf Hfree Hfault) as Hp.
        rewrite Hfolder in Hp. by apply Hp.
  - destruct w as [t l]. by eapply placed_refused.
Qed.

(** An outcome of the tail is one of the things a visit can do. *)
Lemma placed_visited (os : platform) (src : path) (a b name label : string)
    (w0 : world) (t1 : filesystem) (c : nat) (f : file_data) (out : result nat * world) :
  fs w0 !! (src // name) = Some (File f) → name ≠ ".DS_Store" →
  with_folder (fs w0) (src // a // b) t1 →
  placed os src name f (src // a // b) label (log w0) t1 c out →
  visited src name w0 c out.
Proof.
  intros Hf Hds Hfolder Hp.
  assert (length (src // a // b) = (length src + 2)%nat) as Hlen2.
  { unfold joinpath. rewrite !length_app. simpl. lia. }
  assert (∀ k, src `prefix_of` candidate (src // a // b // name) k) as Hpre.
  { intros k. by apply candidate_prefix, prefix_join, prefix_join. }
  assert (∀ k, length (candidate (src // a // b // name) k) = (length src + 3)%nat) as Hlen3.
  { intros k. rewrite candidate_length. lia. }
  destruct Hp as [k msg Hbusy Hmsg | k Hbusy Hnf Hfree Hmv Hdir
                  | k Hbusy Hnf Hfree Hmv Hnd | k msg leftover Hbusy Hnf Hfree Hmv].
  - by apply visit_raised with (f := f) (folder := src // a // b).
  - apply visit_moved; try done. by rewrite candidate_parent.
  - apply visit_left with (f := f) (t1 := t1) (folder := src // a // b); try done.
    constructor.
  - apply visit_left with (f := f) (t1 := t1) (folder := src // a // b); try done.
    by apply left_behind_cases.
Qed.

Lemma place_file_visited (os : platform) (src : path) (a b name label : string)
    (w0 w : world) (c : nat) (f : file_data) :
  fs w0 !! (src // name) = Some (File f) → name ≠ ".DS_Store" →
  with_folder (fs w0) (src // a // b) (fs w) → log w = log w0 →
  visited src name w0 c
    ((do destination <- handle_duplicates os (src // a // b // name);
      try_move os (src // name) destination label c) w).
Proof.
  intros Hf Hds Hfolder Hlog.
  pose proof (with_folder_file _ _ _ _ _ Hfolder Hf) as Hf1.
  apply placed_visited with (os := os) (a := a) (b := b) (label := label) (t1 := fs w) (f := f);
    try done.
  rewrite <- Hlog. by apply place_file_placed.
Qed.

Lemma organize_by_type_body_visited (os : platform) (self : FileOrganizer)
    (name : string) (c : nat) (w : world) :
  visited (source_dir self) name w c
    (organize_by_type_body os self (source_dir self // "Organized") name c w).
Proof.
  unfold organize_by_type_body.
  change (bind get_fs ?k w) with (k (fs w) w). cbv beta.
  fold (eligible (fs w) (source_dir self) name).
  destruct (eligible (fs w) (source_dir self) name) eqn:Hel.
  - apply eligible_true in Hel as [[f Hf] Hds].
    apply place_file_visited with (f := f); try done. constructor.
  - by apply visit_skipped.
Qed.

Lemma organize_by_date_body_visited (os : platform) (self : FileOrganizer)
    (name : string) (c : nat) (w : world) :
  visited (source_dir self) name w c
    (organize_by_date_body os self (source_dir self // "Organized_by_Date") name c w).
Proof.
  unfold organize_by_date_body.
  change (bind get_fs ?k w) with (k (fs w) w). cbv beta.
  fold (eligible (fs w) (source_dir self) name).
  destruct (eligible (fs w) (source_dir self) name) eqn:Hel.
  - apply eligible_true in Hel as [[f Hf] Hds].
    unfold bind at 1. unfold stat. rewrite Hf.
    set (ym := strftime_Y_m (fromtimestamp os (st_ctime f))).
    unfold bind at 1.
    destruct (mkdir_exist_ok_cases w (source_dir self // "Organized_by_Date" // ym))
      as [(e & -> & _) | (t1 & -> & Hfolder & _)].
    + destruct w as [t l].
      apply visit_raised with (f := f) (t1 := t)
                              (folder := source_dir self // "Organized_by_Date" // ym);
        try done; [|constructor].
      rewrite !join_length. lia.
    + by apply place_file_visited with (f := f).
  - by apply visit_skipped.
Qed.

(** ** What a visit changes *)

Lemma parent_length (p : path) : length (parent p) = pred (length p).
Proof.
  unfold parent. induction p as [|x [|y p] IH]; simpl in *; try done.
  by rewrite IH.
Qed.

Lemma eligible_lookup (t t1 : filesystem) (src : path) (n : string) :
  t1 !! (src // n) = t !! (src // n) → eligible t1 src n = eligible t src n.
Proof. unfold eligible, is_file. by intros ->. Qed.

Lemma with_folder_file_count (root : path) (t t1 : filesystem) (folder : path) :
  with_folder t folder t1 → file_count root t1 = file_count root t.
Proof. intros [|Hnone]; [done|]. by apply file_count_mkdir. Qed.

Lemma leftover_at_steps (src : path) (t1 t2 : filesystem) :
  leftover_at src t1 t2 → rtc (fs_step src) t1 t2.
Proof. intros [|d g Hpre Hlen Hfree]; [done|]. apply rtc_once. by constructor. Qed.

Lemma leftover_at_lookup (src : path) (t1 t2 : filesystem) (p : path) :
  leftover_at src t1 t2 → length p ≠ (length src + 3)%nat → t2 !! p = t1 !! p.
Proof.
  intros [|d g Hpre Hlen Hfree] Hp; [done|].
  rewrite lookup_insert_ne; [done | congruence].
Qed.

Lemma leftover_at_keeps (src : path) (t1 t2 : filesystem) (p : path) (x : node) :
  leftover_at src t1 t2 → t1 !! p = Some x → t2 !! p = Some x.
Proof.
  intros [|d g Hpre Hlen Hfree] Hp; [done|].
  rewrite lookup_insert_ne; [done | congruence].
Qed.

Lemma visited_evolves (src : path) (name : string) (w : world) (c : nat)
    (r : result nat) (w' : world) :
  visited src name w c (r, w') → evolves src w w'.
Proof.
  inversion 1 as [Hel | e f t1 folder Hf Hds Hlen Hfolder
                  | f t1 d label Hf Hds Hpre Hlen Hfolder Hfree
                  | f t1 t2 folder e Hf Hds Hlen Hfolder Hleft]; subst.
  - reflexivity.
  - apply evolves_tree; [by eapply with_folder_steps | by eapply with_folder_file_count].
  - split; simpl; [|split; [by eexists|]].
    + etrans; [by eapply with_folder_steps|]. apply rtc_once.
      apply fs_step_move; try done.
      * by apply prefix_join.
      * by eapply with_folder_file.
    + intros _. rewrite (file_count_move src t1 (src // name) d f); try done.
      * by eapply with_folder_file_count.
      * by apply prefix_join.
      * by eapply with_folder_file.
  - split; simpl; [|split; [by eexists|]].
    + etrans; [by eapply with_folder_steps | by apply leftover_at_steps].
    + rewrite error_count_app. simpl. lia.
Qed.

(** A visit leaves every entry of [src] as it was, except the visited one when
    it is moved. *)
Lemma visited_frame (src : path) (name : string) (w : world) (c : nat)
    (r : result nat) (w' : world) (n : string) :
  visited src name w c (r, w') →
  fs w' !! (src // n) = fs w !! (src // n)
  ∨ (n = name ∧ eligible (fs w) src name = true ∧ fs w' !! (src // n) = None
     ∧ ∃ c', r = Ok c' ∧ c' = (c + 1)%nat ∧ error_count w' = error_count w).
Proof.
  inversion 1 as [Hel | e f t1 folder Hf Hds Hlen Hfolder
                  | f t1 d label Hf Hds Hpre Hlen Hfolder Hfree
                  | f t1 t2 folder e Hf Hds Hlen Hfolder Hleft]; subst; simpl.
  - by left.
  - left. eapply with_folder_lookup; [done|].
    intros Heq. apply (f_equal length) in Heq. rewrite join_length in Heq. lia.
  - assert (src // n ≠ d) as Hnd.
    { intros <-. rewrite join_length in Hlen. lia. }
    assert (src // n ≠ parent d) as Hnp.
    { intros Heq. apply (f_equal length) in Heq.
      rewrite join_length, parent_length, Hlen in Heq. lia. }
    rewrite lookup_insert_ne by done.
    destruct (decide (n = name)) as [->|Hne].
    + right. rewrite lookup_delete_eq. repeat split; try done.
      * apply eligible_true. eauto.
      * exists (c + 1)%nat. repeat split; try done.
        rewrite error_count_app. simpl. lia.
    + left. rewrite lookup_delete_ne by (intros [_ ?]%join_inj; done).
      by eapply with_folder_lookup.
  - left. rewrite (leftover_at_lookup _ _ _ _ Hleft) by (rewrite join_length; lia).
    eapply with_folder_lookup; [done|].
    intros Heq. apply (f_equal length) in Heq. rewrite join_length in Heq. lia.
Qed.

(** A visit that neither raises nor logs an error has skipped an entry that
    is not eligible, or moved the file. *)
Lemma visited_quiet (src : path) (name : string) (w : world) (c c' : nat) (w' : world) :
  visited src name w c (Ok c', w') → error_count w' = error_count w →
  (eligible (fs w) src name = false ∧ w' = w ∧ c' = c)
  ∨ (eligible (fs w) src name = true ∧ fs w' !! (src // name) = None ∧ c' = (c + 1)%nat).
Proof.
  intros Hv Herr.
  destruct (visited_frame _ _ _ _ _ _ name Hv) as [Hsame | (_ & Hel & Hnone & c1 & [= ->] & -> & _)];
    [|by right].
  inversion Hv as [Hel | | f t1 d label Hf Hds Hpre Hlen Hfolder Hfree
                   | f t1 t2 folder e Hf Hds Hlen Hfolder Hleft]; subst.
  - by left.
  - simpl in Hsame. rewrite Hf in Hsame.
    assert (src // name ≠ d) as Hnd by (intros <-; rewrite join_length in Hlen; lia).
    rewrite lookup_insert_ne, lookup_delete_eq in Hsame by done. done.
  - rewrite error_count_app in Herr. simpl in Herr. lia.
Qed.

(** ** A whole loop of visits *)

Lemma filter_eligible_ext (t t1 : filesystem) (src : path) (l : list string) :
  (∀ n, n ∈ l → eligible t1 src n = eligible t src n) →
  filter (λ n, eligible t1 src n = true) l = filter (λ n, eligible t src n = true) l.
Proof.
  induction l as [|x l IH]; intros Hext; [done|].
  assert (eligible t1 src x = eligible t src x) as Hx by (apply Hext; by left).
  assert (filter (λ n, eligible t1 src n = true) l = filter (λ n, eligible t src n = true) l) as Hl.
  { apply IH. intros n Hn. apply Hext. by right. }
  destruct (eligible t src x) eqn:Hel.
  - rewrite !filter_cons_True by congruence. by rewrite Hl.
  - rewrite !filter_cons_False by congruence. done.
Qed.

Section VisitLoop.

Variable src : path.
Variable body : string → nat → M nat.
Hypothesis body_visits : ∀ name c w, visited src name w c (body name c w).

Lemma body_evolves (name : string) (c : nat) : stays (evolves src) (body name c).
Proof.
  intros w. pose proof (body_visits name c w) as Hv.
  destruct (body name c w) as [r w']. by eapply visited_evolves.
Qed.

Lemma loop_evolves (l : list string) (c : nat) : stays (evolves src) (for_entries body l c).
Proof. apply stays_for_entries; [apply _ | apply body_evolves]. Qed.

Lemma loop_step (name : string) (l : list string) (c : nat) (w : world)
    (r : result nat) (w' : world) :
  for_entries body (name :: l) c w = (r, w') →
  (∃ e, body name c w = (Raise e, w') ∧ r = Raise e)
  ∨ (∃ c1 w1, body name c w = (Ok c1, w1) ∧ for_entries body l c1 w1 = (r, w')).
Proof.
  simpl. unfold bind. destruct (body name c w) as [[c1|e] w1].
  - intros H. right. by exists c1, w1.
  - intros [= <- <-]. left. by exists e.
Qed.

(** Entries of [src] only ever disappear, and only eligible ones the loop
    went through. *)
Lemma loop_frame (l : list string) (c : nat) (w : world) (r : result nat) (w' : world)
    (n : string) :
  for_entries body l c w = (r, w') →
  fs w' !! (src // n) = fs w !! (src // n)
  ∨ (n ∈ l ∧ eligible (fs w) src n = true ∧ fs w' !! (src // n) = None).
Proof.
  revert c w. induction l as [|name l IH]; intros c w Hrun.
  - injection Hrun as <- <-. by left.
  - apply loop_step in Hrun as [(e & Hb & ->) | (c1 & w1 & Hb & Hrest)].
    + pose proof (body_visits name c w) as Hv. rewrite Hb in Hv.
      destruct (visited_frame _ _ _ _ _ _ n Hv) as [Hsame | (-> & Hel & Hnone & _)].
      * by left.
      * right. repeat split; try done. by left.
    + pose proof (body_visits name c w) as Hv. rewrite Hb in Hv.
      destruct (visited_frame _ _ _ _ _ _ n Hv) as [Hsame | (-> & Hel & Hnone & _)];
        destruct (IH _ _ Hrest) as [Hsame' | (Hin & Hel' & Hnone')].
      * left. congruence.
      * right. repeat split; try done; [by right|].
        by rewrite <- (eligible_lookup _ _ _ _ Hsame).
      * right. repeat split; try done; [by left | congruence].
      * right. repeat split; try done. by left.
Qed.

(** A loop that returns without a new error record has moved every eligible
    entry it went through, and counted each once. *)
Lemma loop_quiet (l : list string) (c : nat) (w : world) (c' : nat) (w' : world) :
  for_entries body l c w = (Ok c', w') → error_count w' = error_count w →
  (∀ n, n ∈ l → eligible (fs w) src n = true → fs w' !! (src // n) = None)
  ∧ (NoDup l → c' = (c + length (filter (λ n, eligible (fs w) src n = true) l))%nat).
Proof.
  revert c w. induction l as [|name l IH]; intros c w Hrun Herr.
  - injection Hrun as <- <-. split; [by intros n Hn%elem_of_nil | simpl; lia].
  - apply loop_step in Hrun as [(e & _ & [=]) | (c1 & w1 & Hb & Hrest)].
    pose proof (body_visits name c w) as Hv. rewrite Hb in Hv.
    pose proof (evolves_error_count _ _ _ (visited_evolves _ _ _ _ _ _ Hv)) as Hle1.
    pose proof (loop_evolves l c1 w1) as Hle2. rewrite Hrest in Hle2.
    apply evolves_error_count in Hle2. simpl in Hle2.
    assert (error_count w1 = error_count w) as Herr1 by lia.
    assert (error_count w' = error_count w1) as Herr2 by lia.
    destruct (IH _ _ Hrest Herr2) as [IHgone IHcount].
    destruct (visited_quiet _ _ _ _ _ _ Hv Herr1) as [(Hel & -> & ->) | (Hel & Hnone & ->)].
    + split.
      * intros n [->|Hn]%elem_of_cons Heln; [congruence | by apply IHgone].
      * intros [Hnotin Hnd]%NoDup_cons. rewrite filter_cons_False by congruence.
        by apply IHcount.
    + assert (∀ n, n ∈ l → n ≠ name → eligible (fs w1) src n = eligible (fs w) src n) as Hext.
      { intros n Hn Hne. apply eligible_lookup.
        destruct (visited_frame _ _ _ _ _ _ n Hv) as [Hsame | (-> & _)]; done. }
      split.
      * intros n [->|Hn]%elem_of_cons Heln.
        -- destruct (loop_frame _ _ _ _ _ name Hrest) as [Hsame | (_ & _ & Hgone)];
             congruence.
        -- destruct (decide (n = name)) as [->|Hne].
           ++ destruct (loop_frame _ _ _ _ _ name Hrest) as [Hsame | (_ & _ & Hgone)];
                congruence.
           ++ apply IHgone; [done|]. by rewrite Hext.
      * intros [Hnotin Hnd]%NoDup_cons. rewrite filter_cons_True by done.
        rewrite (IHcount Hnd). simpl.
        rewrite (filter_eligible_ext (fs w) (fs w1) src l); [lia|].
        intros n Hn. apply Hext; [done|]. by intros ->.
Qed.

(** A loop over entries none of which is eligible changes nothing. *)
Lemma loop_all_skipped (l : list string) (c : nat) (w : world) :
  (∀ n, n ∈ l → eligible (fs w) src n = false) →
  for_entries body l c w = (Ok c, w).
Proof.
  induction l as [|name l IH]; intros Hnone; [done|].
  simpl. unfold bind.
  pose proof (body_visits name c w) as Hv.
  assert (eligible (fs w) src name = false) as Hel by (apply Hnone; by left).
  assert (body name c w = (Ok c, w)) as ->.
  { inversion Hv as [ | e f t1 folder Hf Hds | f t1 d label Hf Hds
                      | f t1 t2 folder e Hf Hds]; try done;
      assert (eligible (fs w) src name = true) by (apply eligible_true; eauto); congruence. }
  apply IH. intros n Hn. apply Hnone. by right.
Qed.

End VisitLoop.

(** ** Listings have no repetition *)

Lemma NoDup_entries (t : filesystem) (d : path) : NoDup (entries t d).
Proof.
  unfold entries. pose proof (NoDup_fst_map_to_list t) as Hnd.
  induction (map_to_list t) as [|kv l IH]; [constructor|].
  rewrite fmap_cons in Hnd. apply NoDup_cons in Hnd as [Hnotin Hnd].
  change (omap ?f (kv :: l)) with
    (match f kv with Some y => y :: omap f l | None => omap f l end).
  destruct (child_name d kv.1) as [n|] eqn:Hc; [|by apply IH].
  apply NoDup_cons. split; [|by apply IH].
  rewrite list_elem_of_omap. intros (kv' & Hin & Hc').
  apply child_name_spec in Hc, Hc'. apply Hnotin.
  rewrite Hc, <- Hc'. apply list_elem_of_fmap. by exists kv'.
Qed.

Lemma elem_of_scandir (os : platform) (t : filesystem) (d : path) (n : string) :
  n ∈ scandir_order os (entries t d) ↔ is_Some (t !! (d // n)).
Proof. rewrite (scandir_order_perm os). apply elem_of_entries. Qed.

Lemma eligible_exists (t : filesystem) (src : path) (n : string) :
  eligible t src n = true → is_Some (t !! (src // n)).
Proof. intros [[f Hf] _]%eligible_true. eauto. Qed.

Lemma eligible_entries_ext (t t1 : filesystem) (src : path) :
  (∀ n, eligible t1 src n = eligible t src n) →
  length (eligible_entries t1 src) = length (eligible_entries t src).
Proof.
  intros Hext. apply Permutation_length, NoDup_Permutation.
  - apply NoDup_filter, NoDup_entries.
  - apply NoDup_filter, NoDup_entries.
  - intros n. unfold eligible_entries. rewrite !list_elem_of_filter, !elem_of_entries.
    split; intros [Hel _].
    + rewrite Hext in Hel. split; [done | by apply eligible_exists].
    + rewrite <- Hext in Hel. split; [done | by apply eligible_exists].
Qed.

(** ** A whole pass *)

Section Pass.

Variable os : platform.
Variable src : path.
Variable prelude : M path.
Variable body : path → string → nat → M nat.
Variable summary : nat → string.
Variable od : path.

Hypothesis prelude_evolves : stays (evolves src) prelude.
Hypothesis prelude_ok : ∀ w od' wa,
  prelude w = (Ok od', wa) →
  od' = od ∧ log wa = log w
  ∧ (∀ n, eligible (fs wa) src n = eligible (fs w) src n)
  ∧ (∀ w1, rtc (fs_step src) (fs wa) (fs w1) → prelude w1 = (Ok od, w1)).
Hypothesis body_visits : ∀ name c w, visited src name w c (body od name c w).

Let rest : M unit :=
  do names <- iterdir os src;
  do moved_count <- for_entries (body od) names 0%nat;
  logging_info (summary moved_count).

Lemma rest_cases (wa : world) :
  ((fs wa !! src ≠ Some Dir ∨ listdir_fault os src ≠ None) ∧ ∃ e, rest wa = (Raise e, wa))
  ∨ (fs wa !! src = Some Dir ∧ listdir_fault os src = None
     ∧ ∃ r wb,
         for_entries (body od) (scandir_order os (entries (fs wa) src)) 0%nat wa = (r, wb)
         ∧ rest wa = match r with
                     | Ok c => (Ok tt, {| fs := fs wb; log := log wb ++ [LogInfo (summary c)] |})
                     | Raise e => (Raise e, wb)
                     end).
Proof.
  unfold rest, bind, iterdir.
  destruct (fs wa !! src) as [[f|]|] eqn:Hsrc.
  - left. split; [by left | by eexists].
  - destruct (listdir_fault os src) as [msg|] eqn:Hlist.
    + left. split; [by right | by eexists].
    + right. split; [done|]. split; [done|].
      destruct (for_entries _ _ _ wa) as [[c|e] wb]; by eexists _, _.
  - left. split; [by left | by eexists].
Qed.

Lemma pass_cases (w : world) :
  let pass := organize_pass os src prelude body summary in
  (path_exists (fs w) src = false
   ∧ pass w = (Ok tt, {| fs := fs w;
                         log := log w ++ [LogError ("Source directory " +:+ path_str src
                                                    +:+ " does not exist!")] |}))
  ∨ (path_exists (fs w) src = true
     ∧ ((∃ e wa, prelude w = (Raise e, wa) ∧ pass w = (Raise e, wa))
        ∨ (∃ wa, prelude w = (Ok od, wa) ∧ pass w = rest wa))).
Proof.
  intros pass. unfold pass, organize_pass.
  change (bind get_fs ?k w) with (k (fs w) w). cbv beta.
  destruct (path_exists (fs w) src); simpl; [right | by left].
  split; [done|].
  destruct (prelude w) as [[od'|e] wa] eqn:Hp.
  - right. exists wa. destruct (prelude_ok _ _ _ Hp) as (-> & _).
    split; [done|]. unfold bind at 1. by rewrite Hp.
  - left. exists e, wa. split; [done|]. unfold bind at 1. by rewrite Hp.
Qed.

Lemma pass_evolves : stays (evolves src) (organize_pass os src prelude body summary).
Proof.
  intros w. pose proof (prelude_evolves w) as Hpre.
  destruct (pass_cases w) as [[_ ->] | [_ [(e & wa & Hp & ->) | (wa & Hp & ->)]]]; simpl.
  - split; simpl; [done|]. split; [by eexists | done].
  - by rewrite Hp in Hpre.
  - rewrite Hp in Hpre. simpl in Hpre. etrans; [exact Hpre|].
    destruct (rest_cases wa) as [(_ & e & ->) | (_ & _ & r & wb & Hloop & ->)]; [done|].
    pose proof (loop_evolves src (body od) body_visits
                  (scandir_order os (entries (fs wa) src)) 0%nat wa) as Hl.
    rewrite Hloop in Hl. simpl in Hl.
    destruct r as [c|e]; simpl; [|done].
    etrans; [exact Hl|]. split; simpl; [done|]. split; [by eexists | done].
Qed.

(** A pass that returns without a new error record has emptied the source
    directory of eligible files and says how many it moved; run again at
    once, it changes nothing and reports zero. *)
Lemma pass_quiet (w w1 : world) :
  organize_pass os src prelude body summary w = (Ok tt, w1) →
  error_count w1 = error_count w →
  (∀ n, eligible (fs w) src n = true → fs w1 !! (src // n) = None)
  ∧ (∀ n, eligible (fs w1) src n = false)
  ∧ (∃ older, log w1 = older ++ [LogInfo (summary (length (eligible_entries (fs w) src)))])
  ∧ organize_pass os src prelude body summary w1
    = (Ok tt, {| fs := fs w1; log := log w1 ++ [LogInfo (summary 0%nat)] |}).
Proof.
  intros Hrun Herr.
  destruct (pass_cases w) as [[_ Hp] | [_ [(e & wa & _ & Hp) | (wa & Hpre & Hp)]]];
    rewrite Hp in Hrun; clear Hp.
  { injection Hrun as <-. rewrite error_count_app in Herr. simpl in Herr. lia. }
  { done. }
  destruct (prelude_ok _ _ _ Hpre) as (_ & Hlog & Hel & Hagain).
  destruct (rest_cases wa) as [(_ & e & Hr) | (Hdir & Hlist & r & wb & Hloop & Hr)];
    rewrite Hr in Hrun; [done|].
  destruct r as [c|e]; [|done]. injection Hrun as <-.
  assert (error_count wa = error_count w) as Ha by (unfold error_count; by rewrite Hlog).
  rewrite error_count_app in Herr. simpl in Herr.
  set (names := scandir_order os (entries (fs wa) src)) in *.
  destruct (loop_quiet src (body od) body_visits names 0%nat wa c wb Hloop) as [Hgone Hcount];
    [lia|].
  pose proof (loop_evolves src (body od) body_visits names 0%nat wa) as [Hsteps _].
  rewrite Hloop in Hsteps. simpl in Hsteps.
  assert (∀ n, eligible (fs wb) src n = false) as Hnone.
  { intros n. destruct (eligible (fs wb) src n) eqn:Heln; [|done].
    pose proof (eligible_exists _ _ _ Heln) as [x Hx].
    destruct (loop_frame src (body od) body_visits names 0%nat wa _ wb n Hloop)
      as [Hsame | (_ & _ & Hg)]; [|congruence].
    rewrite (eligible_lookup _ _ _ _ Hsame) in Heln.
    rewrite Hgone in Hx; [done | | done].
    apply elem_of_scandir. by apply eligible_exists. }
  simpl. repeat split.
  - intros n Heln. rewrite <- Hel in Heln. apply Hgone; [|done].
    apply elem_of_scandir. by apply eligible_exists.
  - exact Hnone.
  - exists (log wb). do 3 f_equal. rewrite Hcount.
    + simpl. rewrite <- (eligible_entries_ext (fs w) (fs wa) src Hel).
      unfold eligible_entries, names. by rewrite (scandir_order_perm os).
    + unfold names. rewrite (scandir_order_perm os). apply NoDup_entries.
  - set (w1 := {| fs := fs wb; log := log wb ++ [LogInfo (summary c)] |}).
    destruct (pass_cases w1) as [[Hex _] | [_ [(e & wa' & Hpre' & _) | (wa' & Hpre' & ->)]]].
    + apply path_exists_false in Hex. simpl in Hex.
      by rewrite (fs_steps_keeps_dir _ _ _ _ Hsteps Hdir) in Hex.
    + rewrite (Hagain w1 Hsteps) in Hpre'. done.
    + rewrite (Hagain w1 Hsteps) in Hpre'. injection Hpre' as <-.
      destruct (rest_cases w1) as [([Hnd | Hnl] & _) | (_ & _ & r & wb' & Hloop' & ->)].
      * simpl in Hnd. by rewrite (fs_steps_keeps_dir _ _ _ _ Hsteps Hdir) in Hnd.
      * done.
      * rewrite (loop_all_skipped src (body od) body_visits) in Hloop'.
        -- by injection Hloop' as <- <-.
        -- intros n _. apply Hnone.
Qed.

(** A pass that returns from an existing source has been through its
    prelude, and the tree evolved from there. *)
Lemma pass_returns (w w1 : world) :
  organize_pass os src prelude body summary w = (Ok tt, w1) →
  path_exists (fs w) src = true →
  ∃ wa, prelude w = (Ok od, wa) ∧ rtc (fs_step src) (fs wa) (fs w1).
Proof.
  intros Hrun Hex.
  destruct (pass_cases w) as [[Hno _] | [_ [(e & wa & _ & Hp) | (wa & Hpre & Hp)]]];
    [congruence | rewrite Hp in Hrun; done |].
  rewrite Hp in Hrun. exists wa. split; [done|].
  destruct (rest_cases wa) as [(_ & e & Hr) | (_ & _ & r & wb & Hloop & Hr)];
    rewrite Hr in Hrun; [done|].
  destruct r as [c|e]; [|done]. injection Hrun as <-. simpl.
  pose proof (loop_evolves src (body od) body_visits
                (scandir_order os (entries (fs wa) src)) 0%nat wa) as [Hsteps _].
  by rewrite Hloop in Hsteps.
Qed.

End Pass.

(** ** Making folders *)

Lemma mkdir_exist_ok_stays (root p : path) : stays (evolves root) (mkdir_exist_ok p).
Proof.
  intros w. destruct (mkdir_exist_ok_cases w p) as [(e & -> & _) | (t1 & -> & Hf & _)].
  - reflexivity.
  - apply evolves_tree; [by eapply with_folder_steps | by eapply with_folder_file_count].
Qed.

Lemma mkdir_all_stays (root : path) (ps : list path) : stays (evolves root) (mkdir_all ps).
Proof.
  induction ps as [|p ps IH]; simpl.
  - apply stays_ret, _.
  - apply stays_bind; [apply _ | apply mkdir_exist_ok_stays | done].
Qed.

Lemma mkdir_all_ok (ps : list path) (w wa : world) :
  mkdir_all ps w = (Ok tt, wa) →
  log wa = log w
  ∧ (∀ p, p ∈ ps → fs wa !! p = Some Dir)
  ∧ (∀ p, is_file (fs wa) p = is_file (fs w) p).
Proof.
  revert w. induction ps as [|p ps IH]; intros w; simpl.
  - intros [= <-]. split; [done|]. split; [|done]. by intros p Hp%elem_of_nil.
  - unfold bind.
    destruct (mkdir_exist_ok_cases w p) as [(e & -> & _) | (t1 & -> & Hf & Hdir)]; [done|].
    intros Hrest. destruct (IH _ Hrest) as (Hlog & Hdirs & Hfiles). simpl in *.
    split; [done|]. split.
    + intros q [->|Hq]%elem_of_cons; [|by apply Hdirs].
      pose proof (mkdir_all_stays [] ps {| fs := t1; log := log w |}) as [Hsteps _].
      rewrite Hrest in Hsteps. by apply (fs_steps_keeps_dir _ _ _ _ Hsteps).
    + intros q. rewrite Hfiles. unfold is_file.
      destruct Hf as [|Hnone]; [done|].
      destruct (decide (q = p)) as [->|Hne].
      * by rewrite lookup_insert_eq, Hnone.
      * by rewrite lookup_insert_ne.
Qed.

Lemma mkdir_all_there (ps : list path) (w : world) :
  (∀ p, p ∈ ps → fs w !! p = Some Dir) → mkdir_all ps w = (Ok tt, w).
Proof.
  induction ps as [|p ps IH]; intros Hdirs; [done|].
  simpl. unfold bind, mkdir_exist_ok at 1.
  rewrite (Hdirs p) by (by left). apply IH. intros q Hq. apply Hdirs. by right.
Qed.

Lemma mkdir_categories_all (organized_dir : path) (categories : list string) (w : world) :
  mkdir_categories organized_dir categories w
  = mkdir_all (map (joinpath organized_dir) categories) w.
Proof.
  revert w. induction categories as [|c cs IH]; intros w; [done|].
  simpl. unfold bind. destruct (mkdir_exist_ok _ w) as [[[]|e] w1]; [apply IH | done].
Qed.

Lemma mkdir_all_app (ps qs : list path) (w : world) :
  mkdir_all (ps ++ qs) w = (do mkdir_all ps; mkdir_all qs) w.
Proof.
  revert w. induction ps as [|p ps IH]; intros w; [done|].
  simpl. unfold bind in *. destruct (mkdir_exist_ok p w) as [[[]|e] w1]; [apply IH | done].
Qed.

Lemma create_organized_structure_all (self : FileOrganizer) (w : world) :
  create_organized_structure self w
  = (do mkdir_all (organized_folders self); ret (source_dir self // "Organized")) w.
Proof.
  unfold create_organized_structure, organized_folders.
  cbn [mkdir_all]. unfold bind.
  destruct (mkdir_exist_ok _ w) as [[[]|e] w1]; [|done].
  rewrite mkdir_categories_all, mkdir_all_app. unfold bind.
  destruct (mkdir_all _ w1) as [[[]|e] w2]; [|done].
  cbn [mkdir_all]. unfold bind.
  by destruct (mkdir_exist_ok _ w2) as [[[]|e] w3].
Qed.

Section Prelude.

Variable src : path.
Variable ps : list path.
Variable od : path.

Let prelude : M path := do mkdir_all ps; ret od.

Lemma prelude_stays : stays (evolves src) prelude.
Proof.
  apply stays_bind; [apply _ | apply mkdir_all_stays |].
  intros _. apply stays_ret, _.
Qed.

Lemma prelude_again (w : world) (od' : path) (wa : world) :
  prelude w = (Ok od', wa) →
  od' = od ∧ log wa = log w
  ∧ (∀ n, eligible (fs wa) src n = eligible (fs w) src n)
  ∧ (∀ w1, rtc (fs_step src) (fs wa) (fs w1) → prelude w1 = (Ok od, w1)).
Proof.
  unfold prelude, bind, ret.
  destruct (mkdir_all ps w) as [[[]|e] w'] eqn:Hm; [|done].
  intros [= <- <-]. destruct (mkdir_all_ok _ _ _ Hm) as (Hlog & Hdirs & Hfiles).
  split; [done|]. split; [done|]. split.
  - intros n. unfold eligible. by rewrite Hfiles.
  - intros w1 Hsteps. rewrite mkdir_all_there; [done|].
    intros p Hp. apply (fs_steps_keeps_dir _ _ _ _ Hsteps). by apply Hdirs.
Qed.

End Prelude.

(** ** Both passes have the common shape *)

Lemma organize_by_type_is_pass (os : platform) (self : FileOrganizer) :
  organize_by_type os self
  = organize_pass os (source_dir self) (create_organized_structure self)
      (organize_by_type_body os self) summary_by_type.
Proof. reflexivity. Qed.

Lemma organize_by_date_is_pass (os : platform) (self : FileOrganizer) (w : world) :
  organize_by_date os self w
  = organize_pass os (source_dir self)
      (do mkdir_all [source_dir self // "Organized_by_Date"];
       ret (source_dir self // "Organized_by_Date"))
      (organize_by_date_body os self) summary_by_date w.
Proof.
  unfold organize_by_date, organize_pass.
  change (bind get_fs ?k w) with (k (fs w) w). cbv beta.
  destruct (negb (path_exists (fs w) (source_dir self))); [done|].
  cbn [mkdir_all]. unfold bind, ret.
  by destruct (mkdir_exist_ok _ w) as [[[]|e] w1].
Qed.

Lemma type_prelude_stays (self : FileOrganizer) :
  stays (evolves (source_dir self)) (create_organized_structure self).
Proof.
  intros w. rewrite create_organized_structure_all. apply prelude_stays.
Qed.

Lemma type_prelude_again (self : FileOrganizer) (w : world) (od' : path) (wa : world) :
  create_organized_structure self w = (Ok od', wa) →
  od' = source_dir self // "Organized" ∧ log wa = log w
  ∧ (∀ n, eligible (fs wa) (source_dir self) n = eligible (fs w) (source_dir self) n)
  ∧ (∀ w1, rtc (fs_step (source_dir self)) (fs wa) (fs w1) →
           create_organized_structure self w1 = (Ok (source_dir self // "Organized"), w1)).
Proof.
  rewrite create_organized_structure_all. intros Hrun.
  destruct (prelude_again (source_dir self) _ _ _ _ _ Hrun) as (? & ? & ? & Hagain).
  repeat split; try done. intros w1 Hsteps.
  rewrite create_organized_structure_all. by apply Hagain.
Qed.

Lemma organize_evolves (os : platform) (self : FileOrganizer) (m : mode) :
  stays (evolves (source_dir self)) (organize os self m).
Proof.
  destruct m; simpl.
  - rewrite organize_by_type_is_pass.
    apply pass_evolves with (od := source_dir self // "Organized").
    + apply type_prelude_stays.
    + apply type_prelude_again.
    + apply organize_by_type_body_visited.
  - intros w. rewrite organize_by_date_is_pass.
    apply pass_evolves with (od := source_dir self // "Organized_by_Date").
    + apply prelude_stays.
    + apply prelude_again.
    + apply organize_by_date_body_visited.
Qed.

Lemma organize_quiet (os : platform) (self : FileOrganizer) (m : mode) (w w1 : world) :
  organize os self m w = (Ok tt, w1) → error_count w1 = error_count w →
  (∀ n, eligible (fs w) (source_dir self) n = true → fs w1 !! (source_dir self // n) = None)
  ∧ (∀ n, eligible (fs w1) (source_dir self) n = false)
  ∧ (∃ older,
       log w1 = older
                ++ [LogInfo (summary m (length (eligible_entries (fs w) (source_dir self))))])
  ∧ organize os self m w1
    = (Ok tt, {| fs := fs w1; log := log w1 ++ [LogInfo (summary m 0%nat)] |}).
Proof.
  destruct m; simpl.
  - rewrite organize_by_type_is_pass.
    apply pass_quiet with (od := source_dir self // "Organized").
    + apply type_prelude_again.
    + apply organize_by_type_body_visited.
  - rewrite !organize_by_date_is_pass.
    apply pass_quiet with (od := source_dir self // "Organized_by_Date").
    + apply prelude_again.
    + apply organize_by_date_body_visited.
Qed.

(** ** Running twice *)

(** C4.  A pass (either mode) that returns without logging a new error has
    moved every eligible file out of the source directory, reports their
    number, and has lost no file.  Run again at once, the pass returns, leaves
    the tree as it is, and reports zero files moved: nothing eligible is left
    among the entries, and the folders made by the first run are reused. *)
Theorem organize_twice_moves_once (os : platform) (self : FileOrganizer) (m : mode)
    (w w1 : world) :
  organize os self m w = (Ok tt, w1) →
  error_count w1 = error_count w →
  (∀ n, eligible (fs w) (source_dir self) n = true → fs w1 !! (source_dir self // n) = None)
  ∧ (∃ older,
       log w1 = older
                ++ [LogInfo (summary m (length (eligible_entries (fs w) (source_dir self))))])
  ∧ file_count (source_dir self) (fs w1) = file_count (source_dir self) (fs w)
  ∧ eligible_entries (fs w1) (source_dir self) = []
  ∧ organize os self m w1
    = (Ok tt, {| fs := fs w1; log := log w1 ++ [LogInfo (summary m 0%nat)] |}).
Proof.
  intros Hrun Herr.
  destruct (organize_quiet os self m w w1 Hrun Herr) as (Hgone & Hnone & Hlog & Hagain).
  repeat split; try done.
  - pose proof (organize_evolves os self m w) as (_ & _ & Hcount). rewrite Hrun in Hcount.
    by apply Hcount.
  - unfold eligible_entries. induction (entries (fs w1) (source_dir self)) as [|n l IH]; [done|].
    rewrite filter_cons_False; [done|]. by rewrite Hnone.
Qed.

Lemma organize_twice_moves_once_witness :
  let w1 := (organize Example.os Example.organizer ByType Example.start).2 in
  (∀ n, eligible Example.tree Example.downloads n = true →
        fs w1 !! (Example.downloads // n) = None)
  ∧ (∃ older, log w1 = older ++ [LogInfo "Successfully organized 5 files!"])
  ∧ file_count Example.downloads (fs w1) = file_count Example.downloads Example.tree
  ∧ eligible_entries (fs w1) Example.downloads = []
  ∧ organize Example.os Example.organizer ByType w1
    = (Ok tt, {| fs := fs w1;
                 log := log w1 ++ [LogInfo "Successfully organized 0 files!"] |}).
Proof.
  intros w1.
  assert (Hn : length (eligible_entries Example.tree Example.downloads) = 5%nat)
    by (vm_compute; reflexivity).
  pose proof (organize_twice_moves_once Example.os Example.organizer ByType Example.start w1)
    as H.
  simpl in H. rewrite Hn in H. apply H.
  - vm_compute. reflexivity.
  - vm_compute. reflexivity.
Defined.

(** ** What is skipped and what is moved *)

Lemma organize_by_type_body_placed (os : platform) (self : FileOrganizer)
    (name : string) (c : nat) (w : world) (f : file_data) :
  let src := source_dir self in
  let category := get_file_category os self name in
  fs w !! (src // name) = Some (File f) → name ≠ ".DS_Store" →
  placed os src name f (src // "Organized" // category) category (log w) (fs w) c
    (organize_by_type_body os self (src // "Organized") name c w).
Proof.
  intros src category Hf Hds.
  unfold organize_by_type_body.
  change (bind get_fs ?k w) with (k (fs w) w). cbv beta.
  fold (eligible (fs w) (source_dir self) name).
  rewrite (proj2 (eligible_true _ _ _)) by eauto.
  by apply place_file_placed.
Qed.

Lemma organize_by_date_body_placed (os : platform) (self : FileOrganizer)
    (name : string) (c : nat) (w : world) (f : file_data) :
  let src := source_dir self in
  let year_month := strftime_Y_m (fromtimestamp os (st_ctime f)) in
  let date_folder := src // "Organized_by_Date" // year_month in
  let by_date := organize_by_date_body os self (src // "Organized_by_Date") name c w in
  fs w !! (src // name) = Some (File f) → name ≠ ".DS_Store" →
  match mkdir_exist_ok date_folder w with
  | (Raise e, _) => by_date = (Raise e, w)
  | (Ok _, wa) =>
      fs wa !! date_folder = Some Dir
      ∧ placed os src name f date_folder year_month (log w) (fs wa) c by_date
  end.
Proof.
  intros src year_month date_folder by_date Hf Hds.
  assert (by_date
          = match mkdir_exist_ok date_folder w with
            | (Ok _, wa) =>
                (do destination <- handle_duplicates os (date_folder // name);
                 try_move os (src // name) destination year_month c) wa
            | (Raise e, wa) => (Raise e, wa)
            end) as ->.
  { unfold by_date, organize_by_date_body.
    change (bind get_fs ?k w) with (k (fs w) w). cbv beta.
    fold (eligible (fs w) (source_dir self) name).
    rewrite (proj2 (eligible_true _ _ _)) by eauto.
    unfold bind at 1. unfold stat. fold src. rewrite Hf.
    unfold bind at 1. fold year_month. fold date_folder.
    by destruct (mkdir_exist_ok date_folder w) as [[[]|e] wa]. }
  destruct (mkdir_exist_ok_cases w date_folder)
    as [(e & -> & _) | (t1 & -> & Hfolder & Hdir)]; [done|].
  split; [done|].
  apply (place_file_placed os src date_folder name year_month
           {| fs := t1; log := log w |} c f).
  simpl. by eapply with_folder_file.
Qed.



(** ** The cleanup pass *)

Lemma entries_nil (t : filesystem) (p : path) :
  entries t p = [] ↔ ∀ x, t !! (p // x) = None.
Proof.
  split.
  - intros Hnil x. apply eq_None_not_Some. rewrite <- elem_of_entries, Hnil.
    apply not_elem_of_nil.
  - intros Hnone. destruct (entries t p) as [|n l] eqn:He; [done|].
    assert (n ∈ entries t p) as Hin by (rewrite He; by left).
    apply elem_of_entries in Hin as [x Hx]. by rewrite Hnone in Hx.
Qed.

Lemma type_run_folders (os : platform) (self : FileOrganizer) (w0 w : world) :
  path_exists (fs w0) (source_dir self) = true →
  organize_by_type os self w0 = (Ok tt, w) →
  ∀ p, p ∈ organized_folders self → fs w !! p = Some Dir.
Proof.
  intros Hex Hrun p Hp. rewrite organize_by_type_is_pass in Hrun.
  destruct (pass_returns os (source_dir self) (create_organized_structure self)
              (organize_by_type_body os self) summary_by_type
              (source_dir self // "Organized")
              (type_prelude_again self) (organize_by_type_body_visited os self)
              w0 w Hrun Hex) as (wa & Hpre & Hsteps).
  rewrite create_organized_structure_all in Hpre. unfold bind, ret in Hpre.
  destruct (mkdir_all (organized_folders self) w0) as [[[]|e] w'] eqn:Hm; [|done].
  injection Hpre as <-.
  destruct (mkdir_all_ok _ _ _ Hm) as (_ & Hdirs & _).
  apply (fs_steps_keeps_dir _ _ _ _ Hsteps). by apply Hdirs.
Qed.

Lemma clean_body_cases (os : platform) (self : FileOrganizer) (name : string) (c : nat)
    (w : world) :
  let p := source_dir self // name in
  let out := clean_empty_folders_body os self name c w in
  (out = (Ok c, w)
   ∧ (fs w !! p ≠ Some Dir ∨ (listdir_fault os p = None ∧ entries (fs w) p ≠ [])))
  ∨ (fs w !! p = Some Dir
     ∧ ∃ msg, listdir_fault os p = Some msg ∧ out = (Raise (OSError msg), w))
  ∨ (fs w !! p = Some Dir ∧ listdir_fault os p = None ∧ entries (fs w) p = []
     ∧ ((rmdir_fault os p = None
         ∧ out = (Ok (c + 1)%nat,
                  {| fs := delete p (fs w);
                     log := log w ++ [LogInfo ("Removed empty folder: " +:+ name)] |}))
        ∨ (∃ msg, rmdir_fault os p = Some msg
                  ∧ out = (Ok c, {| fs := fs w;
                                    log := log w ++ [LogError ("Error removing folder " +:+ name
                                                               +:+ ": " +:+ msg)] |})))).
Proof.
  intros p out.
  assert (out = match fs w !! p with
                | Some Dir =>
                    match listdir_fault os p with
                    | Some msg => (Raise (OSError msg), w)
                    | None =>
                        match entries (fs w) p with
                        | [] =>
                            match rmdir_fault os p with
                            | Some msg =>
                                (Ok c, {| fs := fs w;
                                          log := log w
                                                 ++ [LogError ("Error removing folder " +:+ name
                                                               +:+ ": " +:+ msg)] |})
                            | None =>
                                (Ok (c + 1)%nat,
                                 {| fs := delete p (fs w);
                                    log := log w
                                           ++ [LogInfo ("Removed empty folder: " +:+ name)] |})
                            end
                        | _ :: _ => (Ok c, w)
                        end
                    end
                | _ => (Ok c, w)
                end) as ->.
  { unfold out, clean_empty_folders_body, any_iterdir, try_except, get_fs, iterdir, is_dir,
      rmdir, logging_info, logging_error, bind, ret. cbv beta. fold p.
    destruct (fs w !! p) as [[f|]|] eqn:Hp; try done. rewrite ?Hp.
    destruct (listdir_fault os p) as [msg|]; [done|].
    destruct (entries (fs w) p) as [|n l] eqn:He.
    - assert (scandir_order os [] = []) as ->
        by apply Permutation_nil_r, (scandir_order_perm os).
      simpl. destruct (rmdir_fault os p); [done|]. by rewrite ?Hp, ?He.
    - destruct (scandir_order os (n :: l)) as [|n' l'] eqn:Hs; [|done].
      pose proof (scandir_order_perm os (n :: l)) as Hperm. rewrite Hs in Hperm.
      by apply Permutation_nil_cons in Hperm. }
  destruct (fs w !! p) as [[f|]|]; [left; split; [done | by left] | | left; split; [done | by left]].
  destruct (listdir_fault os p) as [msg|]; [right; left; split; [done | by exists msg]|].
  destruct (entries (fs w) p) as [|n l]; [|left; split; [done | right; by split]].
  right. right. split; [done|]. split; [done|]. split; [done|].
  destruct (rmdir_fault os p) as [msg|]; [right; by exists msg | by left].
Qed.

(** Whatever the loop does and however it ends, it takes away nothing but
    empty directories among the entries it went through. *)
Lemma clean_loop_frame (os : platform) (self : FileOrganizer) (l : list string) (c : nat)
    (w : world) (r : result nat) (w' : world) :
  for_entries (clean_empty_folders_body os self) l c w = (r, w') →
  ∀ q, fs w' !! q = fs w !! q
       ∨ (∃ n, n ∈ l ∧ q = source_dir self // n ∧ fs w !! q = Some Dir
               ∧ entries (fs w) q = [] ∧ fs w' !! q = None).
Proof.
  revert c w. induction l as [|name l IH]; intros c w Hrun.
  - injection Hrun as <- <-. by left.
  - simpl in Hrun. unfold bind in Hrun.
    destruct (clean_body_cases os self name c w)
      as [[Hout _] | [(Hdir & msg & _ & Hout)
                     | (Hdir & _ & Hempty & [[_ Hout] | (msg & _ & Hout)])]];
      rewrite Hout in Hrun.
    + pose proof (IH _ _ Hrun) as Hframe.
      intros q; destruct (Hframe q) as [Hsame | (n & Hn & -> & Hd & He & Hgone)].
      * by left.
      * right. exists n. repeat split; try done. by right.
    + injection Hrun as <- <-. by left.
    + pose proof (IH _ _ Hrun) as Hframe.
      intros q; destruct (Hframe q) as [Hsame | (n & Hn & -> & Hd & He & Hgone)]; simpl in *.
      * destruct (decide (q = source_dir self // name)) as [->|Hne].
        -- right. exists name. rewrite lookup_delete_eq in Hsame.
           repeat split; try done. by left.
        -- left. by rewrite lookup_delete_ne in Hsame.
      * right. exists n.
        assert (source_dir self // n ≠ source_dir self // name) as Hne.
        { intros Heq. rewrite Heq, lookup_delete_eq in Hd. done. }
        rewrite lookup_delete_ne in Hd by done.
        repeat split; try done; [by right|].
        apply entries_nil. intros x.
        rewrite entries_nil in He. specialize (He x).
        rewrite lookup_delete_ne in He; [done|].
        intros Heq. apply (f_equal length) in Heq. rewrite !join_length in Heq. lia.
    + pose proof (IH _ _ Hrun) as Hframe.
      intros q; destruct (Hframe q) as [Hsame | (n & Hn & -> & Hd & He & Hgone)]; simpl in *.
      * by left.
      * right. exists n. repeat split; try done. by right.
Qed.


(** A loop that returns had every directory among its entries listed. *)
Lemma clean_loop_listed (os : platform) (self : FileOrganizer) (l : list string) (c : nat)
    (w : world) (c' : nat) (w' : world) :
  for_entries (clean_empty_folders_body os self) l c w = (Ok c', w') → NoDup l →
  ∀ n, n ∈ l → fs w !! (source_dir self // n) = Some Dir →
       listdir_fault os (source_dir self // n) = None.
Proof.
  revert c w. induction l as [|name l IH]; intros c w Hrun Hnd n Hn Hd.
  - by apply elem_of_nil in Hn.
  - apply NoDup_cons in Hnd as [Hnotin Hnd].
    simpl in Hrun. unfold bind in Hrun.
    destruct (clean_body_cases os self name c w)
      as [[Hout Hwhy] | [(Hdir & msg & Hmsg & Hout)
                        | (Hdir & Hlist & Hempty & Hrm)]].
    + rewrite Hout in Hrun. apply elem_of_cons in Hn as [->|Hn].
      * destruct Hwhy as [Hno | [Hlist _]]; [done | done].
      * by apply (IH _ _ Hrun Hnd).
    + rewrite Hout in Hrun. done.
    + apply elem_of_cons in Hn as [->|Hn]; [done|].
      assert (source_dir self // n ≠ source_dir self // name) as Hne.
      { intros [_ ->]%join_inj. done. }
      destruct Hrm as [[_ Hout] | (msg & _ & Hout)]; rewrite Hout in Hrun.
      * apply (IH _ _ Hrun Hnd n Hn). simpl. by rewrite lookup_delete_ne.
      * by apply (IH _ _ Hrun Hnd n Hn).
Qed.

Lemma clean_frame (os : platform) (self : FileOrganizer) (w : world) (q : path) :
  let w' := (clean_empty_folders os self w).2 in
  fs w' !! q = fs w !! q
  ∨ (∃ n, q = source_dir self // n ∧ fs w !! q = Some Dir
          ∧ entries (fs w) q = [] ∧ fs w' !! q = None).
Proof.
  cbv zeta. unfold clean_empty_folders, iterdir, bind.
  destruct (fs w !! source_dir self) as [[f|]|]; [by left | | by left].
  destruct (listdir_fault os (source_dir self)); [by left|].
  destruct (for_entries _ _ _ w) as [r w1] eqn:Hloop.
  pose proof (clean_loop_frame _ _ _ _ _ _ _ Hloop) as Hframe.
  assert (fs (match r with
              | Ok a => logging_info ("Removed " +:+ pretty a +:+ " empty folders!") w1
              | Raise e => (Raise e, w1)
              end).2 = fs w1) as -> by (by destruct r).
  destruct (Hframe q) as [Hsame | (n & _ & H)]; [by left | right; by exists n].
Qed.

(** C10.  Whatever the tree, the cleanup pass takes away nothing but direct
    children of the source directory that are directories without entries.
    Run after a type-mode pass that returned, it keeps "Organized" (which has
    entries) and every folder made inside it, the empty ones included. *)
Theorem cleanup_keeps_organized_folders (os : platform) (self : FileOrganizer)
    (w0 w : world) :
  path_exists (fs w0) (source_dir self) = true →
  organize_by_type os self w0 = (Ok tt, w) →
  let w' := (clean_empty_folders os self w).2 in
  (∀ q, fs w' !! q = fs w !! q
        ∨ (∃ n, q = source_dir self // n ∧ fs w !! q = Some Dir
                ∧ entries (fs w) q = [] ∧ fs w' !! q = None))
  ∧ fs w' !! (source_dir self // "Organized") = Some Dir
  ∧ (∀ category, category ∈ map fst (file_types self) ++ ["Others"] →
       fs w' !! (source_dir self // "Organized" // category) = Some Dir).
Proof.
  intros Hex Hrun w'.
  pose proof (type_run_folders os self w0 w Hex Hrun) as Hdirs.
  assert (∀ category, category ∈ map fst (file_types self) ++ ["Others"] →
            source_dir self // "Organized" // category ∈ organized_folders self) as Hin.
  { intros category Hc. unfold organized_folders. right.
    apply elem_of_app in Hc as [Hc | ->%list_elem_of_singleton].
    - apply elem_of_app. left. by apply list_elem_of_fmap_2.
    - apply elem_of_app. right. by left. }
  split; [intros q; apply clean_frame|]. split.
  - destruct (clean_frame os self w (source_dir self // "Organized"))
      as [Hsame | (n & _ & _ & Hempty & _)].
    + fold w' in Hsame. rewrite Hsame. apply Hdirs. by left.
    + rewrite entries_nil in Hempty. specialize (Hempty "Others").
      rewrite Hdirs in Hempty; [done|]. apply Hin, elem_of_app. right. by left.
  - intros category Hc.
    destruct (clean_frame os self w (source_dir self // "Organized" // category))
      as [Hsame | (n & Heq & _)].
    + fold w' in Hsame. rewrite Hsame. by apply Hdirs, Hin.
    + apply (f_equal length) in Heq. rewrite !join_length in Heq. lia.
Qed.

Lemma cleanup_keeps_organized_folders_witness :
  let w := (organize_by_type Example.os Example.organizer Example.start).2 in
  let w' := (clean_empty_folders Example.os Example.organizer w).2 in
  (∀ q, fs w' !! q = fs w !! q
        ∨ (∃ n, q = Example.downloads // n ∧ fs w !! q = Some Dir
                ∧ entries (fs w) q = [] ∧ fs w' !! q = None))
  ∧ fs w' !! (Example.downloads // "Organized") = Some Dir
  ∧ (∀ category, category ∈ map fst default_file_types ++ ["Others"] →
       fs w' !! (Example.downloads // "Organized" // category) = Some Dir).
Proof.
  intros w.
  apply (cleanup_keeps_organized_folders Example.os Example.organizer Example.start w).
  - vm_compute. reflexivity.
  - vm_compute. reflexivity.
Defined.

(** ** Nothing is lost *)






(** ** A missing source directory *)



(** C7.  With no source directory each organize pass logs the error, makes
    no directory and moves no file, and [main] returns when no cleanup was
    asked for.  With [--clean] the cleanup pass then lists the missing
    directory and [FileNotFoundError] leaves [main]. *)
Theorem missing_source_with_clean_raises :
  let w := {| fs := Example.bare_tree; log := [] |} in
  let logged :=
    {| fs := Example.bare_tree;
       log := [LogError "Source directory /home/user/Downloads does not exist!"] |} in
  organize_by_type Example.os Example.organizer w = (Ok tt, logged)
  ∧ organize_by_date Example.os Example.organizer w = (Ok tt, logged)
  ∧ main Example.os {| directory := Example.downloads; mode_of := ByType; clean := false |} w
    = (Ok tt, logged)
  ∧ main Example.os {| directory := Example.downloads; mode_of := ByType; clean := true |} w
    = (Raise (FileNotFoundError Example.downloads), logged)
  ∧ main Example.os {| directory := Example.downloads; mode_of := ByDate; clean := true |} w
    = (Raise (FileNotFoundError Example.downloads), logged).
Proof. vm_compute. repeat split. Qed.

(** C2.  A failure of [shutil.move] is caught and logged, but the listing of
    the cleanup pass is outside any [try]: on a missing source directory
    [clean_empty_folders] raises [FileNotFoundError], logs nothing and never
    reaches its summary line.  The organize passes test for the directory
    first; the folders they make are outside any [try] as well. *)
Theorem cleanup_raises_on_missing_source :
  let w := {| fs := Example.bare_tree; log := [] |} in
  clean_empty_folders Example.os Example.organizer w
  = (Raise (FileNotFoundError Example.downloads), w)
  ∧ organize_by_date Example.os Example.organizer {| fs := Example.blocked_tree; log := [] |}
    = (Raise (FileExistsError (Example.downloads // "Organized_by_Date" // "2024-01")),
       {| fs := Example.blocked_tree; log := [] |}).
Proof. vm_compute. repeat split. Qed.

(** C1.  In date mode the month folder is made outside the [try]: when a
    regular file has its name, the visit of [x.txt] raises [FileExistsError];
    the file stays where it was, nothing is logged and the pass is over.  No
    file is lost all the same. *)
Theorem blocked_month_folder_aborts_visit :
  let w := {| fs := Example.blocked_tree; log := [] |} in
  let src := Example.downloads in
  eligible (fs w) src "x.txt" = true
  ∧ organize_by_date_body Example.os Example.organizer (src // "Organized_by_Date")
      "x.txt" 0 w
    = (Raise (FileExistsError (src // "Organized_by_Date" // "2024-01")), w)
  ∧ organize_by_date Example.os Example.organizer w
    = (Raise (FileExistsError (src // "Organized_by_Date" // "2024-01")), w)
  ∧ file_count src (fs (organize_by_date Example.os Example.organizer w).2)
    = file_count src (fs w).
Proof. vm_compute. repeat split. Qed.

(** ** The date bucket at work *)

Lemma date_bucket_is_year_month_witness :
  let d1 := fromtimestamp Example.os 1704067200 in
  let d2 := fromtimestamp Example.os 1706745600 in
  valid_datetime d1 ∧ valid_datetime d2
  ∧ strftime_Y_m d1 = "2024-01" ∧ strftime_Y_m d2 = "2024-02"
  ∧ (strftime_Y_m d1 = strftime_Y_m d2 ↔ year d1 = year d2 ∧ month d1 = month d2).
Proof.
  intros d1 d2.
  assert (V1 : valid_datetime d1) by (repeat split; by vm_compute).
  assert (V2 : valid_datetime d2) by (repeat split; by vm_compute).
  split; [done|]. split; [done|].
  split; [vm_compute; reflexivity|]. split; [vm_compute; reflexivity|].
  exact (proj2 (date_bucket_is_year_month Example.os 1704067200 1706745600 V1 V2)).
Defined.


(** * Further properties *)

(** ** [create_organized_structure] *)

Lemma mkdir_exist_ok_keeps (p : path) (w : world) (q : path) (x : node) :
  fs w !! q = Some x → fs (mkdir_exist_ok p w).2 !! q = Some x.
Proof.
  intros Hq. destruct (mkdir_exist_ok_cases w p) as [(e & -> & _) | (t1 & -> & Hf & _)];
    simpl; [done|].
  destruct Hf as [|Hnone]; [done|]. rewrite lookup_insert_ne; [done | congruence].
Qed.

Lemma mkdir_all_keeps (ps : list path) (w : world) (q : path) (x : node) :
  fs w !! q = Some x → fs (mkdir_all ps w).2 !! q = Some x.
Proof.
  revert w. induction ps as [|p ps IH]; intros w Hq; [done|].
  simpl. unfold bind. pose proof (mkdir_exist_ok_keeps p w q x Hq) as H1.
  destruct (mkdir_exist_ok p w) as [[[]|e] w1]; simpl in *; [by apply IH | done].
Qed.






(** X5.  Making the structure twice in a row is making it once: the second
    call finds every folder and changes nothing (and when the first call
    raises, so does the sequence, in the same world). *)
Theorem create_organized_structure_twice (self : FileOrganizer) (w : world) :
  (do create_organized_structure self; create_organized_structure self) w
  = create_organized_structure self w.
Proof.
  unfold bind. destruct (create_organized_structure self w) as [[od|e] wa] eqn:Hrun; [|done].
  destruct (type_prelude_again self w od wa Hrun) as (-> & _ & _ & Hagain).
  by apply Hagain.
Qed.

(** X6.  When a regular file named "Organized" is in the source directory,
    [create_organized_structure] raises [FileExistsError] and changes nothing,
    and so does the whole type-mode pass: no file is moved and nothing is
    logged. *)
Theorem organized_taken_by_a_file (os : platform) (self : FileOrganizer) (w : world)
    (f : file_data) :
  fs w !! (source_dir self // "Organized") = Some (File f) →
  path_exists (fs w) (source_dir self) = true →
  create_organized_structure self w
  = (Raise (FileExistsError (source_dir self // "Organized")), w)
  ∧ organize_by_type os self w
    = (Raise (FileExistsError (source_dir self // "Organized")), w).
Proof.
  intros Hf Hex.
  assert (create_organized_structure self w
          = (Raise (FileExistsError (source_dir self // "Organized")), w)) as Hc.
  { unfold create_organized_structure, bind, mkdir_exist_ok at 1. by rewrite Hf. }
  split; [done|].
  unfold organize_by_type. change (bind get_fs ?k w) with (k (fs w) w). cbv beta.
  rewrite Hex. simpl. unfold bind at 1. by rewrite Hc.
Qed.

Lemma organized_taken_by_a_file_witness :
  let w := {| fs := Cases.organized_is_a_file; log := [] |} in
  create_organized_structure Example.organizer w
  = (Raise (FileExistsError (Example.downloads // "Organized")), w)
  ∧ organize_by_type Example.os Example.organizer w
    = (Raise (FileExistsError (Example.downloads // "Organized")), w).
Proof.
  intros w.
  apply (organized_taken_by_a_file Example.os Example.organizer w
           {| st_ctime := 1704067200; content := "not a folder" |}).
  - vm_compute. reflexivity.
  - vm_compute. reflexivity.
Defined.

(** ** [clean_empty_folders] *)

Lemma empty_dir_true (t : filesystem) (src : path) (n : string) :
  empty_dir t src n = true
  ↔ t !! (src // n) = Some Dir ∧ entries t (src // n) = [].
Proof.
  unfold empty_dir, is_dir. rewrite andb_true_iff.
  destruct (t !! (src // n)) as [[f|]|], (entries t (src // n)); split; intros [? ?]; done.
Qed.

Lemma empty_dir_delete (t : filesystem) (src : path) (name n : string) :
  n ≠ name → empty_dir (delete (src // name) t) src n = empty_dir t src n.
Proof.
  intros Hne.
  assert (src // n ≠ src // name) as Hp by (intros [_ ?]%join_inj; done).
  destruct (empty_dir t src n) eqn:He.
  - apply empty_dir_true in He as [Hd Hnil]. apply empty_dir_true.
    rewrite lookup_delete_ne by done. split; [done|].
    apply entries_nil. intros x. rewrite entries_nil in Hnil.
    rewrite lookup_delete_ne; [done|].
    intros Heq. apply (f_equal length) in Heq. rewrite !join_length in Heq. lia.
  - destruct (empty_dir (delete (src // name) t) src n) eqn:He'; [|done].
    apply empty_dir_true in He' as [Hd Hnil]. rewrite lookup_delete_ne in Hd by done.
    assert (empty_dir t src n = true); [|congruence].
    apply empty_dir_true. split; [done|].
    apply entries_nil. intros x. rewrite entries_nil in Hnil. specialize (Hnil x).
    rewrite lookup_delete_ne in Hnil; [done|].
    intros Heq. apply (f_equal length) in Heq. rewrite !join_length in Heq. lia.
Qed.

Lemma clean_body_empty (os : platform) (self : FileOrganizer) (name : string) (c : nat)
    (w : world) :
  rmdir_fault os (source_dir self // name) = None →
  (fs w !! (source_dir self // name) = Some Dir →
   listdir_fault os (source_dir self // name) = None) →
  clean_empty_folders_body os self name c w
  = if empty_dir (fs w) (source_dir self) name
    then (Ok (c + 1)%nat,
          {| fs := delete (source_dir self // name) (fs w);
             log := log w ++ [LogInfo ("Removed empty folder: " +:+ name)] |})
    else (Ok c, w).
Proof.
  intros Hnf Hlist.
  destruct (clean_body_cases os self name c w)
    as [[-> Hno] | [(Hdir & msg & Hmsg & _)
                   | (Hdir & _ & Hempty & [[_ ->] | (msg & Hmsg & _)])]].
  - destruct (empty_dir (fs w) (source_dir self) name) eqn:He; [|done].
    apply empty_dir_true in He as [Hd Hnil]. by destruct Hno as [Hno | [_ Hno]].
  - rewrite Hlist in Hmsg; done.
  - by rewrite (proj2 (empty_dir_true _ _ _)).
  - congruence.
Qed.

Lemma filter_empty_dir_ext (t t1 : filesystem) (src : path) (l : list string) :
  (∀ n, n ∈ l → empty_dir t1 src n = empty_dir t src n) →
  filter (λ n, empty_dir t1 src n = true) l = filter (λ n, empty_dir t src n = true) l.
Proof.
  induction l as [|x l IH]; intros Hext; [done|].
  assert (empty_dir t1 src x = empty_dir t src x) as Hx by (apply Hext; by left).
  assert (filter (λ n, empty_dir t1 src n = true) l
          = filter (λ n, empty_dir t src n = true) l) as Hl.
  { apply IH. intros n Hn. apply Hext. by right. }
  destruct (empty_dir t src x) eqn:Hel.
  - rewrite !filter_cons_True by congruence. by rewrite Hl.
  - rewrite !filter_cons_False by congruence. done.
Qed.

(** Without [rmdir] failures and with every directory of its list listed, the
    loop removes the empty folders of its list, one log record and one count
    each, and nothing else. *)
Lemma clean_loop_exact (os : platform) (self : FileOrganizer) (l : list string) (c : nat)
    (w : world) :
  (∀ p, rmdir_fault os p = None) →
  (∀ n, n ∈ l → fs w !! (source_dir self // n) = Some Dir →
        listdir_fault os (source_dir self // n) = None) →
  NoDup l →
  let src := source_dir self in
  let gone := filter (λ n, empty_dir (fs w) src n = true) l in
  ∃ w', for_entries (clean_empty_folders_body os self) l c w
        = (Ok (c + length gone)%nat, w')
        ∧ log w' = log w ++ map (λ n, LogInfo ("Removed empty folder: " +:+ n)) gone
        ∧ (∀ n, n ∈ gone → fs w' !! (src // n) = None)
        ∧ (∀ p, (∀ n, n ∈ gone → p ≠ src // n) → fs w' !! p = fs w !! p).
Proof.
  intros Hnf. revert c w. induction l as [|name l IH]; intros c w Hlist Hnd src gone.
  - exists w. subst gone. simpl. rewrite Nat.add_0_r, app_nil_r.
    repeat split; try done. by intros n Hn%elem_of_nil.
  - apply NoDup_cons in Hnd as [Hnotin Hnd].
    cbn [for_entries]. unfold bind.
    rewrite (clean_body_empty os self name c w (Hnf _)) by (apply Hlist; by left).
    fold src. destruct (empty_dir (fs w) src name) eqn:He.
    + set (w1 := {| fs := delete (src // name) (fs w);
                    log := log w ++ [LogInfo ("Removed empty folder: " +:+ name)] |}).
      destruct (IH (c + 1)%nat w1) as (w' & Hrun & Hlog & Hgone & Hkeep); [|done|].
      { intros n Hn Hd. apply Hlist; [by right|]. simpl in Hd.
        destruct (decide (source_dir self // n = src // name)) as [Heq|Hne].
        - by rewrite Heq, lookup_delete_eq in Hd.
        - by rewrite lookup_delete_ne in Hd. }
      assert (filter (λ n, empty_dir (fs w1) src n = true) l
              = filter (λ n, empty_dir (fs w) src n = true) l) as Hsame.
      { apply filter_empty_dir_ext. intros n Hn. apply empty_dir_delete. by intros ->. }
      fold src in Hrun, Hlog, Hgone, Hkeep. rewrite Hsame in Hrun, Hlog, Hgone, Hkeep.
      exists w'. subst gone. rewrite filter_cons_True by done.
      cbn [length map]. repeat split.
      * rewrite Hrun. do 2 f_equal. lia.
      * rewrite Hlog. simpl. by rewrite <- app_assoc.
      * intros n [->|Hn]%elem_of_cons; [|by apply Hgone].
        rewrite Hkeep; [apply lookup_delete_eq|].
        intros n Hn Heq. apply join_inj in Heq as [_ <-].
        apply list_elem_of_filter in Hn as [_ Hn]. done.
      * intros p Hp. rewrite Hkeep.
        -- simpl. apply lookup_delete_ne. intros <-. apply (Hp name); [by left | done].
        -- intros n Hn. apply Hp. by right.
    + destruct (IH c w) as (w' & Hrun & Hlog & Hgone & Hkeep); [|done|].
      { intros n Hn. apply Hlist. by right. }
      exists w'. subst gone. rewrite filter_cons_False by congruence. done.
Qed.



Lemma cleanup_exact (os : platform) (self : FileOrganizer) (w : world) :
  (∀ p, rmdir_fault os p = None) →
  fs w !! source_dir self = Some Dir →
  listdir_fault os (source_dir self) = None →
  (∀ n, fs w !! (source_dir self // n) = Some Dir →
        listdir_fault os (source_dir self // n) = None) →
  let src := source_dir self in
  let gone := filter (λ n, empty_dir (fs w) src n = true)
                (scandir_order os (entries (fs w) src)) in
  ∃ w', clean_empty_folders os self w = (Ok tt, w')
        ∧ log w' = log w ++ map (λ n, LogInfo ("Removed empty folder: " +:+ n)) gone
                   ++ [LogInfo (summary_clean (length gone))]
        ∧ (∀ n, empty_dir (fs w) src n = true → fs w' !! (src // n) = None)
        ∧ (∀ p, (∀ n, empty_dir (fs w) src n = true → p ≠ src // n) →
                fs w' !! p = fs w !! p).
Proof.
  intros Hnf Hsrc Hlsrc Hlist src gone.
  destruct (clean_loop_exact os self (scandir_order os (entries (fs w) src)) 0%nat w Hnf)
    as (w1 & Hrun & Hlog & Hgone & Hkeep).
  { intros n _. apply Hlist. }
  { rewrite (scandir_order_perm os). apply NoDup_entries. }
  fold src in Hrun, Hlog, Hgone, Hkeep. fold gone in Hrun, Hlog, Hgone, Hkeep.
  exists {| fs := fs w1; log := log w1 ++ [LogInfo (summary_clean (length gone))] |}.
  repeat split; simpl.
  - unfold clean_empty_folders, iterdir, bind. rewrite Hsrc, Hlsrc. fold src. by rewrite Hrun.
  - by rewrite Hlog, <- app_assoc.
  - intros n Hn. apply Hgone. apply list_elem_of_filter. split; [done|].
    apply elem_of_scandir. apply empty_dir_true in Hn as [Hd _]. by rewrite Hd.
  - intros p Hp. apply Hkeep. intros n [Hn _]%list_elem_of_filter. by apply Hp.
Qed.

(** A cleanup that returned had the source directory and each of its
    sub-directories listed. *)
Lemma cleanup_returned_listed (os : platform) (self : FileOrganizer) (w w' : world) :
  clean_empty_folders os self w = (Ok tt, w') →
  fs w !! source_dir self = Some Dir
  ∧ listdir_fault os (source_dir self) = None
  ∧ ∀ n, fs w !! (source_dir self // n) = Some Dir →
         listdir_fault os (source_dir self // n) = None.
Proof.
  unfold clean_empty_folders, iterdir, bind.
  destruct (fs w !! source_dir self) as [[f|]|] eqn:Hsrc; [done | | done].
  destruct (listdir_fault os (source_dir self)) as [msg|]; [done|].
  destruct (for_entries _ _ _ w) as [[c|e] w1] eqn:Hloop; [|done].
  intros _. split; [done|]. split; [done|]. intros n Hd.
  apply (clean_loop_listed _ _ _ _ _ _ _ Hloop).
  - rewrite (scandir_order_perm os). apply NoDup_entries.
  - apply elem_of_scandir. by rewrite Hd.
  - done.
Qed.



(** X9.  A second cleanup right after a first one without [rmdir] failure
    finds no empty folder: it changes nothing in the tree and reports zero. *)
Theorem cleanup_twice_removes_nothing (os : platform) (self : FileOrganizer) (w w' : world) :
  (∀ p, rmdir_fault os p = None) →
  clean_empty_folders os self w = (Ok tt, w') →
  clean_empty_folders os self w'
  = (Ok tt, {| fs := fs w'; log := log w' ++ [LogInfo (summary_clean 0)] |}).
Proof.
  intros Hnf Hrun.
  destruct (cleanup_returned_listed os self w w' Hrun) as (Hsrc & Hlsrc & Hlist).
  destruct (cleanup_exact os self w Hnf Hsrc Hlsrc Hlist)
    as (w1 & Hrun1 & _ & Hgone & Hkeep).
  rewrite Hrun in Hrun1. injection Hrun1 as <-.
  assert (∀ q, fs w' !! q = fs w !! q
               ∨ (∃ n, q = source_dir self // n ∧ fs w !! q = Some Dir
                       ∧ entries (fs w) q = [] ∧ fs w' !! q = None)) as Hframe.
  { intros q. pose proof (clean_frame os self w q) as Hfr.
    cbv zeta in Hfr. by rewrite Hrun in Hfr. }
  assert (fs w' !! source_dir self = Some Dir) as Hsrc'.
  { destruct (Hframe (source_dir self)) as [-> | (n & Heq & _)]; [done|].
    symmetry in Heq. by apply join_ne_self in Heq. }
  assert (∀ n, fs w' !! (source_dir self // n) = Some Dir →
               listdir_fault os (source_dir self // n) = None) as Hlist'.
  { intros n Hd. apply Hlist.
    destruct (Hframe (source_dir self // n)) as [<- | (_ & _ & _ & _ & Hg)]; congruence. }
  assert (∀ n, empty_dir (fs w') (source_dir self) n = false) as Hnone.
  { intros n. destruct (empty_dir (fs w') (source_dir self) n) eqn:He'; [|done].
    apply empty_dir_true in He' as [Hd Hnil].
    destruct (empty_dir (fs w) (source_dir self) n) eqn:He.
    - rewrite (Hgone n He) in Hd. done.
    - assert (empty_dir (fs w) (source_dir self) n = true); [|congruence].
      apply empty_dir_true.
      destruct (Hframe (source_dir self // n)) as [Hsame | (_ & _ & _ & _ & Hg)]; [|congruence].
      split; [congruence|].
      apply entries_nil. intros x. rewrite entries_nil in Hnil. specialize (Hnil x).
      rewrite Hkeep in Hnil; [done|].
      intros m _ Heq. apply (f_equal length) in Heq. rewrite !join_length in Heq. lia. }
  assert (filter (λ n, empty_dir (fs w') (source_dir self) n = true)
            (scandir_order os (entries (fs w') (source_dir self))) = []) as Hnil.
  { induction (scandir_order os (entries (fs w') (source_dir self))) as [|n l IH]; [done|].
    rewrite filter_cons_False; [done|]. by rewrite Hnone. }
  destruct (cleanup_exact os self w' Hnf Hsrc' Hlsrc Hlist')
    as (w2 & Hrun2 & Hlog2 & _ & Hkeep2).
  rewrite Hnil in Hlog2. simpl in Hlog2.
  rewrite Hrun2. f_equal. destruct w2 as [t2 l2]. simpl in *. f_equal; [|done].
  apply map_eq. intros p. apply Hkeep2. intros n Hn. by rewrite Hnone in Hn.
Qed.

Lemma cleanup_twice_removes_nothing_witness :
  let w' := (clean_empty_folders Example.os Example.organizer
               {| fs := Cases.old_and_keep; log := [] |}).2 in
  clean_empty_folders Example.os Example.organizer w'
  = (Ok tt, {| fs := fs w'; log := log w' ++ [LogInfo "Removed 0 empty folders!"] |}).
Proof.
  intros w'.
  apply (cleanup_twice_removes_nothing Example.os Example.organizer
           {| fs := Cases.old_and_keep; log := [] |} w').
  - done.
  - vm_compute. reflexivity.
Defined.

(** ** Where the files go *)

Lemma with_folder_keeps (t t1 : filesystem) (folder p : path) (x : node) :
  with_folder t folder t1 → t !! p = Some x → t1 !! p = Some x.
Proof.
  intros [|Hnone] Hp; [done|]. rewrite lookup_insert_ne; [done | congruence].
Qed.

Lemma visited_keeps (src : path) (name : string) (w : world) (c : nat)
    (r : result nat) (w' : world) (p : path) (x : node) :
  visited src name w c (r, w') → fs w !! p = Some x → p ≠ src // name →
  fs w' !! p = Some x.
Proof.
  inversion 1 as [Hel | e f t1 folder Hf Hds Hlen Hfolder
                  | f t1 d label Hf Hds Hpre Hlen Hfolder Hfree
                  | f t1 t2 folder e Hf Hds Hlen Hfolder Hleft]; subst; simpl; intros Hp Hne.
  - done.
  - by eapply with_folder_keeps.
  - pose proof (with_folder_keeps _ _ _ _ _ Hfolder Hp) as Hp1.
    rewrite lookup_insert_ne by congruence. by rewrite lookup_delete_ne.
  - eapply leftover_at_keeps; [done|]. by eapply with_folder_keeps.
Qed.

Section Places.

Variable src : path.
Variable body : string → nat → M nat.
Variable folder_of : string → file_data → path.

Hypothesis body_visits : ∀ name c w, visited src name w c (body name c w).
Hypothesis body_places : ∀ name c w f c' w',
  fs w !! (src // name) = Some (File f) → name ≠ ".DS_Store" →
  body name c w = (Ok c', w') → error_count w' = error_count w →
  ∃ k, fs w' !! candidate (folder_of name f // name) k = Some (File f).
Hypothesis folder_depth : ∀ name f, length (folder_of name f) = (length src + 2)%nat.

Lemma loop_keeps (l : list string) (c : nat) (w : world) (r : result nat) (w' : world)
    (p : path) (x : node) :
  for_entries body l c w = (r, w') → fs w !! p = Some x → (∀ n, p ≠ src // n) →
  fs w' !! p = Some x.
Proof.
  revert c w. induction l as [|name l IH]; intros c w Hrun Hp Hne.
  - by injection Hrun as <- <-.
  - pose proof (body_visits name c w) as Hv.
    apply (loop_step body) in Hrun as [(e & Hb & ->) | (c1 & w1 & Hb & Hrest)];
      rewrite Hb in Hv.
    + by apply (visited_keeps _ _ _ _ _ _ p x Hv).
    + apply (IH _ _ Hrest); [|done]. by apply (visited_keeps _ _ _ _ _ _ p x Hv).
Qed.

Lemma loop_places (l : list string) (c : nat) (w : world) (c' : nat) (w' : world)
    (n : string) (f : file_data) :
  for_entries body l c w = (Ok c', w') → error_count w' = error_count w →
  n ∈ l → fs w !! (src // n) = Some (File f) → n ≠ ".DS_Store" →
  ∃ k, fs w' !! candidate (folder_of n f // n) k = Some (File f).
Proof.
  revert c w. induction l as [|name l IH]; intros c w Hrun Herr Hin Hf Hds.
  - by apply elem_of_nil in Hin.
  - apply (loop_step body) in Hrun as [(e & _ & [=]) | (c1 & w1 & Hb & Hrest)].
    pose proof (body_visits name c w) as Hv. rewrite Hb in Hv.
    pose proof (evolves_error_count _ _ _ (visited_evolves _ _ _ _ _ _ Hv)) as Hle1.
    pose proof (loop_evolves src body body_visits l c1 w1) as Hle2. rewrite Hrest in Hle2.
    apply evolves_error_count in Hle2. simpl in Hle2.
    destruct (decide (name = n)) as [->|Hne].
    + destruct (body_places n c w f c1 w1 Hf Hds Hb) as [k Hk]; [lia|].
      exists k. apply (loop_keeps _ _ _ _ _ _ _ Hrest Hk).
      intros m Heq. apply (f_equal length) in Heq.
      rewrite candidate_length, join_length, folder_depth in Heq. lia.
    + apply elem_of_cons in Hin as [->|Hin]; [done|].
      apply (IH _ _ Hrest); [lia | done | | done].
      apply (visited_keeps _ _ _ _ _ _ _ _ Hv Hf). by intros [_ ?]%join_inj.
Qed.

End Places.

Lemma placed_places (os : platform) (src : path) (name : string) (f : file_data)
    (folder : path) (label : string) (lg : list log_record) (t1 : filesystem)
    (c c' : nat) (w' : world) :
  placed os src name f folder label lg t1 c (Ok c', w') →
  error_count w' = error_count {| fs := t1; log := lg |} →
  ∃ k, fs w' !! candidate (folder // name) k = Some (File f).
Proof.
  intros Hp Herr.
  inversion Hp as [k msg Hbusy Hmsg | k Hbusy Hnf Hfree Hmv Hdir
                   | k Hbusy Hnf Hfree Hmv Hnd | k msg leftover Hbusy Hnf Hfree Hmv]; subst.
  - exists k. simpl. apply lookup_insert_eq.
  - unfold error_count in Herr. simpl in Herr.
    rewrite filter_app, length_app in Herr. simpl in Herr. lia.
  - unfold error_count in Herr. simpl in Herr.
    rewrite filter_app, length_app in Herr. simpl in Herr. lia.
Qed.

Lemma type_body_places (os : platform) (self : FileOrganizer) (name : string) (c : nat)
    (w : world) (f : file_data) (c' : nat) (w' : world) :
  fs w !! (source_dir self // name) = Some (File f) → name ≠ ".DS_Store" →
  organize_by_type_body os self (source_dir self // "Organized") name c w = (Ok c', w') →
  error_count w' = error_count w →
  ∃ k, fs w' !! candidate (destination_folder os self ByType name f // name) k
       = Some (File f).
Proof.
  intros Hf Hds Hrun Herr.
  pose proof (organize_by_type_body_placed os self name c w f Hf Hds) as Hp.
  cbv zeta in Hp. rewrite Hrun in Hp.
  unfold destination_folder. by eapply placed_places.
Qed.

Lemma date_body_places (os : platform) (self : FileOrganizer) (name : string) (c : nat)
    (w : world) (f : file_data) (c' : nat) (w' : world) :
  fs w !! (source_dir self // name) = Some (File f) → name ≠ ".DS_Store" →
  organize_by_date_body os self (source_dir self // "Organized_by_Date") name c w
  = (Ok c', w') →
  error_count w' = error_count w →
  ∃ k, fs w' !! candidate (destination_folder os self ByDate name f // name) k
       = Some (File f).
Proof.
  intros Hf Hds Hrun Herr.
  pose proof (organize_by_date_body_placed os self name c w f Hf Hds) as Hp.
  cbv zeta in Hp. rewrite Hrun in Hp.
  destruct (mkdir_exist_ok _ w) as [[[]|e] wa]; [|done].
  destruct Hp as [_ Hp]. unfold destination_folder. by eapply placed_places.
Qed.

Section PassPlaces.

Variable os : platform.
Variable src : path.
Variable prelude : M path.
Variable body : path → string → nat → M nat.
Variable summary_of : nat → string.
Variable od : path.
Variable folder_of : string → file_data → path.

Hypothesis prelude_ok : ∀ w od' wa,
  prelude w = (Ok od', wa) →
  od' = od ∧ log wa = log w
  ∧ (∀ n, eligible (fs wa) src n = eligible (fs w) src n)
  ∧ (∀ w1, rtc (fs_step src) (fs wa) (fs w1) → prelude w1 = (Ok od, w1)).
Hypothesis prelude_keeps : ∀ w od' wa p x,
  prelude w = (Ok od', wa) → fs w !! p = Some x → fs wa !! p = Some x.
Hypothesis body_visits : ∀ name c w, visited src name w c (body od name c w).
Hypothesis body_places : ∀ name c w f c' w',
  fs w !! (src // name) = Some (File f) → name ≠ ".DS_Store" →
  body od name c w = (Ok c', w') → error_count w' = error_count w →
  ∃ k, fs w' !! candidate (folder_of name f // name) k = Some (File f).
Hypothesis folder_depth : ∀ name f, length (folder_of name f) = (length src + 2)%nat.

Lemma pass_places (w w1 : world) (n : string) (f : file_data) :
  organize_pass os src prelude body summary_of w = (Ok tt, w1) →
  error_count w1 = error_count w →
  fs w !! (src // n) = Some (File f) → n ≠ ".DS_Store" →
  ∃ k, fs w1 !! candidate (folder_of n f // n) k = Some (File f).
Proof.
  intros Hrun Herr Hf Hds.
  destruct (pass_cases os src prelude body summary_of od prelude_ok w)
    as [[_ Hp] | [_ [(e & wa & _ & Hp) | (wa & Hpre & Hp)]]];
    rewrite Hp in Hrun; clear Hp.
  { injection Hrun as <-. rewrite error_count_app in Herr. simpl in Herr. lia. }
  { done. }
  destruct (prelude_ok _ _ _ Hpre) as (_ & Hlog & _ & _).
  destruct (rest_cases os src body summary_of od wa)
    as [(_ & e & Hr) | (_ & _ & r & wb & Hloop & Hr)]; rewrite Hr in Hrun; [done|].
  destruct r as [c|e]; [|done]. injection Hrun as <-.
  rewrite error_count_app in Herr. simpl in Herr. simpl.
  assert (error_count wa = error_count w) as Ha by (unfold error_count; by rewrite Hlog).
  pose proof (prelude_keeps _ _ _ _ _ Hpre Hf) as Hfa.
  apply (loop_places src (body od) folder_of body_visits body_places folder_depth
           _ _ _ _ _ n f Hloop); try done; [lia|].
  apply elem_of_scandir. by rewrite Hfa.
Qed.

End PassPlaces.

Lemma mkdir_prelude_keeps (ps : list path) (od : path) (w : world) (od' : path)
    (wa : world) (p : path) (x : node) :
  (do mkdir_all ps; ret od) w = (Ok od', wa) → fs w !! p = Some x → fs wa !! p = Some x.
Proof.
  unfold bind, ret. intros Hrun Hp.
  pose proof (mkdir_all_keeps ps w p x Hp) as Hk.
  destruct (mkdir_all ps w) as [[[]|e] w1]; [|done]. by injection Hrun as <- <-.
Qed.

(** X10.  After a pass of either mode that returns without a new error
    record, the data of every regular file of the source directory other than
    [.DS_Store] is in its destination folder — "Organized/<category>" or
    "Organized_by_Date/<YYYY-MM of its creation time>" — under its own name
    or, on collision, under one of the numbered names. *)
Theorem organize_places_every_file (os : platform) (self : FileOrganizer) (m : mode)
    (w w1 : world) (n : string) (f : file_data) :
  organize os self m w = (Ok tt, w1) →
  error_count w1 = error_count w →
  fs w !! (source_dir self // n) = Some (File f) → n ≠ ".DS_Store" →
  ∃ k, fs w1 !! candidate (destination_folder os self m n f // n) k = Some (File f)
       ∧ fs w1 !! (source_dir self // n) = None.
Proof.
  intros Hrun Herr Hf Hds.
  destruct (organize_quiet os self m w w1 Hrun Herr) as (Hgone & _).
  assert (fs w1 !! (source_dir self // n) = None) as Hnone.
  { apply Hgone. apply eligible_true. eauto. }
  cut (∃ k, fs w1 !! candidate (destination_folder os self m n f // n) k = Some (File f)).
  { intros [k Hk]. by exists k. }
  destruct m; simpl in Hrun.
  - rewrite organize_by_type_is_pass in Hrun.
    apply (pass_places os (source_dir self) (create_organized_structure self)
             (organize_by_type_body os self) summary_by_type
             (source_dir self // "Organized")
             (destination_folder os self ByType)) with (w := w); try done.
    + apply type_prelude_again.
    + intros w0 od' wa p x. rewrite create_organized_structure_all.
      apply mkdir_prelude_keeps.
    + apply organize_by_type_body_visited.
    + intros name c w0 f0 c' w'. apply type_body_places.
    + intros name f0. simpl. rewrite !join_length. lia.
  - rewrite organize_by_date_is_pass in Hrun.
    apply (pass_places os (source_dir self)
             (do mkdir_all [source_dir self // "Organized_by_Date"];
              ret (source_dir self // "Organized_by_Date"))
             (organize_by_date_body os self) summary_by_date
             (source_dir self // "Organized_by_Date")
             (destination_folder os self ByDate)) with (w := w); try done.
    + apply prelude_again.
    + intros w0 od' wa p x. apply mkdir_prelude_keeps.
    + apply organize_by_date_body_visited.
    + intros name c w0 f0 c' w'. apply date_body_places.
    + intros name f0. simpl. rewrite !join_length. lia.
Qed.

Lemma organize_places_every_file_witness :
  let w1 := (organize Example.os Example.organizer ByType Example.start).2 in
  ∃ k, fs w1 !! candidate (Example.downloads // "Organized" // "Images" // "photo.JPG") k
       = Some (Example.a_file "jpeg")
       ∧ fs w1 !! (Example.downloads // "photo.JPG") = None.
Proof.
  intros w1.
  apply (organize_places_every_file Example.os Example.organizer ByType Example.start w1
           "photo.JPG" {| st_ctime := 1704067200; content := "jpeg" |}).
  - vm_compute. reflexivity.
  - vm_compute. reflexivity.
  - vm_compute. reflexivity.
  - done.
Defined.

(** ** When the platform fails *)

(** X11.  A move that fails after its copy was written is logged and the
    pass goes on to its summary, but the file is then in both places: one file
    below the source directory before the pass, two after it. *)
Theorem failed_move_can_leave_a_copy :
  let w := {| fs := Cases.one_file; log := [] |} in
  let out := organize_by_type Cases.leaky_os Example.organizer w in
  out.1 = Ok tt
  ∧ log out.2 = [LogError "Error moving x.txt: [Errno 13] Permission denied";
                 LogInfo "Successfully organized 0 files!"]
  ∧ fs out.2 !! (Example.downloads // "x.txt") = Some (Example.a_file "x")
  ∧ fs out.2 !! (Example.downloads // "Organized" // "Documents" // "x.txt")
    = Some (Example.a_file "x")
  ∧ file_count Example.downloads Cases.one_file = 1%nat
  ∧ file_count Example.downloads (fs out.2) = 2%nat.
Proof. vm_compute. repeat split. Qed.

(** X12.  The existence check of the duplicate-name loop is outside the
    [try]: when the platform refuses it, its [OSError] leaves the pass in
    either mode; the file stays, nothing is logged, not even the summary, and
    in date mode the month folder was made already. *)
Theorem refused_check_ends_the_pass :
  let w := {| fs := Cases.one_file; log := [] |} in
  let by_type := organize_by_type Cases.deaf_os Example.organizer w in
  let by_date := organize_by_date Cases.deaf_os Example.organizer w in
  by_type.1 = Raise (OSError "[Errno 13] Permission denied")
  ∧ by_date.1 = Raise (OSError "[Errno 13] Permission denied")
  ∧ log by_type.2 = [] ∧ log by_date.2 = []
  ∧ fs by_type.2 !! (Example.downloads // "x.txt") = Some (Example.a_file "x")
  ∧ fs by_date.2 !! (Example.downloads // "x.txt") = Some (Example.a_file "x")
  ∧ fs by_date.2 !! (Example.downloads // "Organized_by_Date" // "2024-01") = Some Dir.
Proof. vm_compute. repeat split. Qed.

(** X13.  The emptiness test of the cleanup pass is outside the [try]: on a
    folder that cannot be listed its [OSError] leaves the pass, and [main]
    with [--clean], without a summary line; the tree is as the cleanup found
    it. *)
Theorem unlistable_folder_ends_cleanup :
  let w := {| fs := Cases.locked; log := [] |} in
  let a := {| directory := Example.downloads; mode_of := ByType; clean := true |} in
  clean_empty_folders Cases.locked_os Example.organizer w
  = (Raise (OSError "[Errno 13] Permission denied"), w)
  ∧ (main Cases.locked_os a w).1 = Raise (OSError "[Errno 13] Permission denied")
  ∧ log (main Cases.locked_os a w).2
    = [LogInfo "Moved x.txt to Documents/"; LogInfo "Successfully organized 1 files!"]
  ∧ fs (main Cases.locked_os a w).2 !! (Example.downloads // "Locked") = Some Dir.
Proof. vm_compute. repeat split. Qed.

(** X14.  A folder that [rmdir] refuses is logged and the cleanup goes on to
    its summary; the folder stays and is not counted. *)
Theorem failed_rmdir_is_logged :
  let w := {| fs := Cases.old_and_keep; log := [] |} in
  clean_empty_folders Cases.stubborn_os Example.organizer w
  = (Ok tt,
     {| fs := Cases.old_and_keep;
        log := [LogError "Error removing folder Old: [Errno 13] Permission denied";
                LogInfo "Removed 0 empty folders!"] |}).
Proof. vm_compute. repeat split. Qed.
